(** * sanic-agent: the request-model validation engine

    A shallow embedding of [sanic_agent/core/model/base_model.py]
    ([BaseModelPydantic]) and [sanic_agent/rest/httpx/request.py]
    ([ParseModel]), with the properties of the validation engine proved
    over it.

    Python dictionaries keyed by strings are [gmap string _]; the class
    level validator registry and the record of validator invocations are
    threaded through a small state-and-exception monad [Py]. *)

From stdpp Require Import gmap strings list fin_maps pretty.

#[local] Set Warnings "-register-all".
#[local] Open Scope string_scope.

(** ** Dynamic values *)

(** The values that travel through the engine.  [PydanticUndefined] is the
    only inhabitant of [PydanticUndefinedType]; [VNone] is Python's [None]. *)
Inductive Value : Type :=
  | PydanticUndefined
  | VNone
  | VBool (b : bool)
  | VInt (z : Z)
  | VStr (s : string)
  | VList (l : list Value)
  | VDict (d : gmap string Value).

(** Keyword arguments, payloads and the attribute dictionary of an instance
    are all string-keyed dictionaries of values. *)
Abbreviation Kwargs := (gmap string Value).

(** [isinstance(value, PydanticUndefinedType)] *)
Definition is_undefined (value : Value) : bool :=
  match value with PydanticUndefined => true | _ => false end.

(** [value is None] *)
Definition is_None (value : Value) : bool :=
  match value with VNone => true | _ => false end.

(** Truth value of a Python string: the empty string is falsy. *)
Definition str_truthy (s : string) : bool :=
  match s with EmptyString => false | String _ _ => true end.

(** ** Error records *)

(** A segment of an error location: a field name or a sequence index. *)
Inductive LocItem : Type :=
  | LocStr (s : string)
  | LocInt (i : Z).

(** [pydantic_core.ErrorDetails]: a dictionary with the keys "type", "loc",
    "msg" and "input", and the optional keys "ctx" and "url".  A key of the
    dictionary that is not there is [None] here; "input" is optional too
    because [customize_errors] builds dictionaries without it. *)
Module ErrorDetails.
Record t : Type := {
  type : string;
  loc : list LocItem;
  msg : string;
  input : option Value;
  ctx : option Kwargs;
  url : option string
}.
End ErrorDetails.

(** ** Exceptions, validators and the world *)

Inductive Exn : Type :=
  | KeyError (message : string)
  | AttributeError (message : string)
  | ValueError (message : string)
  | ValidationError (title : string) (line_errors : list ErrorDetails.t).

Inductive result (A : Type) : Type :=
  | Raise (e : Exn)
  | Return (a : A).
Arguments Raise {A} e.
Arguments Return {A} a.

(** A validator function as the registry stores it: called as
    [validator(value, **kwargs)], it returns a (possibly transformed) value
    or raises [ValueError] with a message. *)
Definition Validator : Type := Value -> Kwargs -> string + Value.

(** What [_validators_registry] holds under a name: the tuple
    [(validator, kwargs)] that [register_validator] stores, or, in the old
    format that [apply_custom_validators] still accepts, the bare function. *)
Inductive RegistryEntry : Type :=
  | EntryTuple (validator : Validator) (default_args : Kwargs)
  | EntryBare (validator : Validator).

(** One invocation of a validator function. *)
Record Call : Type := {
  call_validator : Validator;
  call_value : Value;
  call_kwargs : Kwargs
}.

(** The process-wide state: the class variable
    [ParseModel._validators_registry], and the validator invocations made so
    far, oldest first. *)
Record World : Type := {
  _validators_registry : gmap string RegistryEntry;
  calls : list Call
}.

(** Computations that read and write the world and may raise. *)
Definition Py (A : Type) : Type := World -> result A * World.

Definition ret {A : Type} (a : A) : Py A := fun w => (Return a, w).

Definition raise {A : Type} (e : Exn) : Py A := fun w => (Raise e, w).

Definition bind {A B : Type} (m : Py A) (k : A -> Py B) : Py B :=
  fun w =>
    match m w with
    | (Return a, w') => k a w'
    | (Raise e, w') => (Raise e, w')
    end.

Notation "x <~ m ;; k" := (bind m (fun x => k))
  (at level 100, m at next level, right associativity).

(** [try: m except Exception as e: ...]: the outcome of [m] as a value. *)
Definition attempt {A : Type} (m : Py A) : Py (result A) :=
  fun w => let '(r, w') := m w in (Return r, w').

(** Reading the registry. *)
Definition get_registry : Py (gmap string RegistryEntry) :=
  fun w => (Return (_validators_registry w), w).

(** Calling [validator(value, **kwargs)]: the call is recorded, and the
    function's [ValueError] becomes a raised exception. *)
Definition invoke (validator : Validator) (value : Value) (kwargs : Kwargs)
  : Py Value :=
  fun w =>
    (match validator value kwargs with
     | inl message => Raise (ValueError message)
     | inr value' => Return value'
     end,
     {| _validators_registry := _validators_registry w;
        calls := calls w ++ [{| call_validator := validator;
                                call_value := value;
                                call_kwargs := kwargs |}] |}).

(** [[f(a) for a in l]]: the results in order, or the first exception. *)
Fixpoint for_each {A B : Type} (f : A -> Py B) (l : list A) : Py (list B) :=
  match l with
  | [] => ret []
  | a :: l' =>
      b <~ f a ;;
      bs <~ for_each f l' ;;
      ret (b :: bs)
  end.

(** ** Schemas *)

(** The keys of [json_schema_extra] that the engine reads: "validator",
    "validator_args" and "error_messages". *)
Record JsonSchemaExtra : Type := {
  extra_validator : option string;
  extra_validator_args : option Kwargs;
  extra_error_messages : option (gmap string string)
}.

(** What the type check of a declared type reports when it rejects a value:
    the failure kind, the message and the context. *)
Record CoreFailure : Type := {
  failure_type : string;
  failure_msg : string;
  failure_ctx : option Kwargs
}.

(** [pydantic.fields.FieldInfo].  [default] is [PydanticUndefined] for a
    required field.  The declared type is given by what it does: the type
    check and coercion of the underlying library for that annotation. *)
Module FieldInfo.
Record t : Type := {
  default : Value;
  annotation : Value -> CoreFailure + Value;
  json_schema_extra : option JsonSchemaExtra
}.

(** [FieldInfo.is_required()] *)
Definition is_required (field_info : t) : bool := is_undefined (default field_info).
End FieldInfo.

(** A subclass of [ParseModel]: its name and [model_fields], the ordered
    dictionary from field name to [FieldInfo]. *)
Record ModelClass : Type := {
  __name__ : string;
  model_fields : list (string * FieldInfo.t)
}.

(** [name in cls.model_fields] *)
Definition in_model_fields (cls : ModelClass) (name : string) : bool :=
  bool_decide (name ∈ (model_fields cls).*1).

(** [cls.model_fields.get(name)] *)
Fixpoint assoc_get {A : Type} (l : list (string * A)) (name : string) : option A :=
  match l with
  | [] => None
  | (k, a) :: l' => if decide (k = name) then Some a else assoc_get l' name
  end.

Definition model_fields_get (cls : ModelClass) (name : string) : option FieldInfo.t :=
  assoc_get (model_fields cls) name.

(** An instance: its class and its attribute dictionary. *)
Record Instance : Type := {
  __class__ : ModelClass;
  __dict__ : Kwargs
}.

(** Truth value of a Python dictionary: the empty dictionary is falsy. *)
Definition dict_truthy {A : Type} (d : gmap string A) : bool :=
  match map_to_list d with [] => false | _ :: _ => true end.

(** [{**a, **b}]: every key of [a] and of [b], the value of [b] where both
    have the key. *)
Definition dict_merge (a b : Kwargs) : Kwargs := b ∪ a.

(** ** The underlying library *)

Module BaseModel.

(** Modelled from the spec: the construction step of the underlying library
    (pydantic's [BaseModel.__init__]), which the repository calls and does
    not contain.  Every field of the schema is handled, in declaration
    order: a supplied value goes through the class's "before" field
    validator [before] and then through the type check of the declared
    type; a field that is not supplied takes its default as it is, or is
    reported missing when it has none.  Every failure is added to one batch
    and the loop goes on to the next field. *)
Definition validate_field
    (before : ModelClass -> Value -> string -> Py Value)
    (cls : ModelClass) (kwargs : Kwargs)
    (field_name : string) (field_info : FieldInfo.t)
  : Py (ErrorDetails.t + Value) :=
  match kwargs !! field_name with
  | Some value =>
      r <~ attempt (before cls value field_name) ;;
      match r with
      | Return value' =>
          match FieldInfo.annotation field_info value' with
          | inr value'' => ret (inr value'')
          | inl failure =>
              ret (inl {| ErrorDetails.type := failure_type failure;
                          ErrorDetails.loc := [LocStr field_name];
                          ErrorDetails.msg := failure_msg failure;
                          ErrorDetails.input := Some value';
                          ErrorDetails.ctx := failure_ctx failure;
                          ErrorDetails.url := None |})
          end
      | Raise (ValueError message) =>
          ret (inl {| ErrorDetails.type := "value_error";
                      ErrorDetails.loc := [LocStr field_name];
                      ErrorDetails.msg := "Value error, " +:+ message;
                      ErrorDetails.input := Some value;
                      ErrorDetails.ctx := Some {[ "error" := VStr message ]};
                      ErrorDetails.url := None |})
      | Raise e => raise e
      end
  | None =>
      if FieldInfo.is_required field_info
      then ret (inl {| ErrorDetails.type := "missing";
                       ErrorDetails.loc := [LocStr field_name];
                       ErrorDetails.msg := "Field required";
                       ErrorDetails.input := Some (VDict kwargs);
                       ErrorDetails.ctx := None;
                       ErrorDetails.url := None |})
      else ret (inr (FieldInfo.default field_info))
  end.

Fixpoint validate_fields
    (before : ModelClass -> Value -> string -> Py Value)
    (cls : ModelClass) (kwargs : Kwargs)
    (fields : list (string * FieldInfo.t))
    (values : Kwargs) (errors : list ErrorDetails.t)
  : Py (Kwargs * list ErrorDetails.t) :=
  match fields with
  | [] => ret (values, errors)
  | (field_name, field_info) :: fields' =>
      r <~ validate_field before cls kwargs field_name field_info ;;
      match r with
      | inl error =>
          validate_fields before cls kwargs fields' values (errors ++ [error])
      | inr value =>
          validate_fields before cls kwargs fields'
            (<[field_name := value]> values) errors
      end
  end.

Definition __init__
    (before : ModelClass -> Value -> string -> Py Value)
    (cls : ModelClass) (kwargs : Kwargs) : Py Instance :=
  r <~ validate_fields before cls kwargs (model_fields cls) ∅ [] ;;
  match r.2 with
  | [] => ret {| __class__ := cls; __dict__ := r.1 |}
  | _ :: _ => raise (ValidationError (__name__ cls) r.2)
  end.

(** Modelled from the spec: [BaseModel.model_validate] of the underlying
    library for a class that defines its own [__init__] (as [ParseModel]
    does): the payload is handed to the class's constructor [init]. *)
Definition model_validate
    (init : ModelClass -> Kwargs -> Py Instance)
    (cls : ModelClass) (obj : Kwargs) : Py Instance :=
  init cls obj.

(** Modelled from the spec: [setattr(self, name, value)] on a field of a
    model with the library's default configuration: the value is stored as
    it is. *)
Definition setattr (self : Instance) (name : string) (value : Value) : Instance :=
  {| __class__ := __class__ self; __dict__ := <[name := value]> (__dict__ self) |}.

(** Modelled from the spec: [getattr(self, name)]. *)
Definition getattr (self : Instance) (name : string) : Py Value :=
  match __dict__ self !! name with
  | Some value => ret value
  | None => raise (AttributeError name)
  end.

(** Modelled from the spec: [model_dump()], the plain mapping from field
    name to field value. *)
Definition model_dump (self : Instance) : Kwargs := __dict__ self.

End BaseModel.

(** ** base_model.py *)

Module BaseModelPydantic.

(** [from_data]: [cls.model_validate(data or {})].  [model_validate] is the
    method the class resolves it to. *)
Definition from_data
    (model_validate : ModelClass -> Kwargs -> Py Instance)
    (cls : ModelClass) (data : option Kwargs) : Py Instance :=
  model_validate cls
    (match data with
     | Some d => if dict_truthy d then d else ∅
     | None => ∅
     end).

Definition to_dict (self : Instance) : Kwargs := BaseModel.model_dump self.

(** [update]: [data] is given by its items, in iteration order. *)
Definition update (self : Instance) (data : list (string * Value)) : Py Instance :=
  ret (fold_left
         (fun self '(key, value) =>
            if in_model_fields (__class__ self) key
            then BaseModel.setattr self key value
            else self)
         data self).

Definition __contains__ (self : Instance) (name : string) : bool :=
  in_model_fields (__class__ self) name.

Definition not_found (name : string) (self : Instance) : string :=
  "Field '" +:+ name +:+ "' not found in " +:+ __name__ (__class__ self).

Definition __getitem__ (self : Instance) (name : string) : Py Value :=
  if negb (in_model_fields (__class__ self) name)
  then raise (KeyError (not_found name self))
  else BaseModel.getattr self name.

Definition __setitem__ (self : Instance) (name : string) (value : Value) : Py Instance :=
  if negb (in_model_fields (__class__ self) name)
  then raise (KeyError (not_found name self))
  else ret (BaseModel.setattr self name value).

Definition keys (self : Instance) : list string := (model_fields (__class__ self)).*1.

(** [values]: [[getattr(self, name) for name in model_fields]] *)
Definition values (self : Instance) : Py (list Value) :=
  for_each (BaseModel.getattr self) (model_fields (__class__ self)).*1.

(** [items]: [[(name, getattr(self, name)) for name in model_fields]] *)
Definition items (self : Instance) : Py (list (string * Value)) :=
  for_each
    (fun name => value <~ BaseModel.getattr self name ;; ret (name, value))
    (model_fields (__class__ self)).*1.

End BaseModelPydantic.

(** ** request.py *)

Module ParseModel.

(** [register_validator]: [cls._validators_registry[name] = (validator, kwargs)] *)
Definition register_validator
    (name : string) (validator : Validator) (kwargs : Kwargs) : Py unit :=
  fun w =>
    (Return tt,
     {| _validators_registry :=
          <[name := EntryTuple validator kwargs]> (_validators_registry w);
        calls := calls w |}).

(** [apply_custom_validators], the "before" validator of every field.
    [field_name] is [field.field_name]. *)
Definition apply_custom_validators
    (cls : ModelClass) (value : Value) (field_name : string) : Py Value :=
  match model_fields_get cls field_name with
  | None => raise (KeyError field_name)
  | Some field_info =>
      match FieldInfo.json_schema_extra field_info with
      | Some extra =>
          match extra_validator extra with
          | Some validator_name =>
              let extra_args :=
                match extra_validator_args extra with
                | Some args => args
                | None => ∅
                end in
              registry <~ get_registry ;;
              match registry !! validator_name with
              | Some validator_data =>
                  let '(validator, default_args) :=
                    match validator_data with
                    | EntryTuple validator default_args => (validator, default_args)
                    | EntryBare validator => (validator, ∅)
                    end in
                  let combined_args := dict_merge default_args extra_args in
                  if is_undefined value || is_None value
                  then ret value
                  else if dict_truthy combined_args
                       then invoke validator value combined_args
                       else invoke validator value ∅
              | None => ret value
              end
          | None => ret value
          end
      | None => ret value
      end
  end.

(** The body of the loop of [customize_errors], for one error. *)
Definition customize_error (cls : ModelClass) (error : ErrorDetails.t) : ErrorDetails.t :=
  let field_name :=
    match ErrorDetails.loc error with
    | item :: _ => item
    | [] => LocStr "unknown"
    end in
  let field_info :=
    match field_name with
    | LocStr name =>
        if in_model_fields cls name then model_fields_get cls name else None
    | LocInt _ => None
    end in
  let custom_message :=
    match field_info with
    | Some field_info =>
        match FieldInfo.json_schema_extra field_info with
        | Some extra =>
            let error_messages :=
              match extra_error_messages extra with
              | Some messages => messages
              | None => ∅
              end in
            error_messages !! ErrorDetails.type error
        | None => None
        end
    | None => None
    end in
  match custom_message with
  | Some message =>
      if str_truthy message
      then {| ErrorDetails.loc := ErrorDetails.loc error;
              ErrorDetails.msg := message;
              ErrorDetails.type := ErrorDetails.type error;
              ErrorDetails.ctx :=
                Some (match ErrorDetails.ctx error with
                      | Some c => c
                      | None => ∅
                      end);
              ErrorDetails.input := None;
              ErrorDetails.url := None |}
      else error
  | None => error
  end.

Definition customize_errors
    (cls : ModelClass) (errors : list ErrorDetails.t) : list ErrorDetails.t :=
  fold_left
    (fun custom_errors error => (custom_errors ++ [customize_error cls error])%list)
    errors [].

(** The loop of [__init__] over [model_fields], filling [kwargs]. *)
Definition fill_defaults (cls : ModelClass) (kwargs : Kwargs) : Kwargs :=
  fold_left
    (fun kwargs field_name =>
       match kwargs !! field_name with
       | Some _ => kwargs
       | None =>
           match model_fields_get cls field_name with
           | Some field_info =>
               if negb (is_None (FieldInfo.default field_info))
               then <[field_name := FieldInfo.default field_info]> kwargs
               else kwargs
           | None => kwargs
           end
       end)
    (model_fields cls).*1 kwargs.

Definition __init__ (cls : ModelClass) (kwargs : Kwargs) : Py Instance :=
  BaseModel.__init__ apply_custom_validators cls (fill_defaults cls kwargs).

(** [model_validate]: the batch of a [ValidationError] is rewritten by
    [customize_errors] and raised again under the same title; the new
    exception carries the rewritten batch as its line errors. *)
Definition model_validate (cls : ModelClass) (obj : Kwargs) : Py Instance :=
  r <~ attempt (BaseModel.model_validate __init__ cls obj) ;;
  match r with
  | Return instance => ret instance
  | Raise (ValidationError title errors) =>
      raise (ValidationError title (customize_errors cls errors))
  | Raise e => raise e
  end.

(** The methods [ParseModel] inherits from [BaseModelPydantic]. *)
Definition from_data (cls : ModelClass) (data : option Kwargs) : Py Instance :=
  BaseModelPydantic.from_data model_validate cls data.

End ParseModel.

(** ** The demonstration of request.py *)

(** Python strings are given by their characters; a character of a Rocq
    string stands for the code point of its number, below 256. *)

(** [value.startswith(prefix)] *)
Definition startswith (value prefix : string) : bool := String.prefix prefix value.

(** A character that [str.isdigit] accepts: the decimal digits and, below
    256, the superscript digits two, three and one. *)
Definition isdigit_char (c : Ascii.ascii) : bool :=
  let n := Ascii.nat_of_ascii c in
  (Nat.leb 48 n && Nat.leb n 57)
  || Nat.eqb n 178 || Nat.eqb n 179 || Nat.eqb n 185.

Fixpoint all_isdigit (s : string) : bool :=
  match s with
  | EmptyString => true
  | String c s' => isdigit_char c && all_isdigit s'
  end.

(** [value.isdigit()]: at least one character, and every character a
    digit. *)
Definition isdigit (value : string) : bool := str_truthy value && all_isdigit value.

(** [validate_phone(value, min_length=11, prefix="1")], at the types of
    its annotations: the value is returned, or [ValueError] is raised with
    the message on the left. *)
Definition validate_phone (value : string) (min_length : Z) (prefix : string)
  : string + string :=
  if negb (str_truthy value)
  then inr value
  else
    if negb (startswith value prefix)
       || negb (Z.of_nat (String.length value) =? min_length)%Z
       || negb (isdigit value)
    then inl ("Invalid phone number format: must start with '" +:+ prefix
              +:+ "' and be " +:+ pretty min_length +:+ " digits")
    else inr value.

(** ** Notions the properties are stated with *)

(** Registry lookup as the dispatcher reads it: the function under [name]
    with its default arguments (none for an entry in the old format). *)
Definition resolve (w : World) (name : string) : option (Validator * Kwargs) :=
  match _validators_registry w !! name with
  | Some (EntryTuple validator default_args) => Some (validator, default_args)
  | Some (EntryBare validator) => Some (validator, ∅)
  | None => None
  end.

(** The validator attachment of a field: the validator name and the field's
    own arguments for it. *)
Definition attachment (cls : ModelClass) (field_name : string)
  : option (string * Kwargs) :=
  field_info ← model_fields_get cls field_name;
  extra ← FieldInfo.json_schema_extra field_info;
  validator_name ← extra_validator extra;
  Some (validator_name, default ∅ (extra_validator_args extra)).

(** A field is optional when it is not required. *)
Definition field_optional (cls : ModelClass) (field_name : string) : bool :=
  match model_fields_get cls field_name with
  | Some field_info => negb (FieldInfo.is_required field_info)
  | None => false
  end.

(** The context of an error record as a mapping: no "ctx" key is the empty
    mapping. *)
Definition ctx_mapping (error : ErrorDetails.t) : Kwargs :=
  default ∅ (ErrorDetails.ctx error).

(** The custom-message table of the field [name]. *)
Definition message_table (cls : ModelClass) (name : string)
  : option (gmap string string) :=
  field_info ← model_fields_get cls name;
  extra ← FieldInfo.json_schema_extra field_info;
  extra_error_messages extra.

(** What one field of the schema comes to when [kwargs] is validated in the
    world [w]: an error record or the field's value. *)
Definition field_outcome (cls : ModelClass) (kwargs : Kwargs) (w : World)
    (field : string * FieldInfo.t) : result (ErrorDetails.t + Value) :=
  (BaseModel.validate_field ParseModel.apply_custom_validators
     cls kwargs field.1 field.2 w).1.

(** The field fails validation. *)
Definition offending (cls : ModelClass) (kwargs : Kwargs) (w : World)
    (field : string * FieldInfo.t) : bool :=
  match field_outcome cls kwargs w field with
  | Return (inl _) => true
  | _ => false
  end.

(** The payload [from_data] hands to [model_validate]. *)
Definition payload_of (data : option Kwargs) : Kwargs := default ∅ data.

(** The field descriptor with its validator attachment taken away. *)
Definition without_validator (field_info : FieldInfo.t) : FieldInfo.t :=
  {| FieldInfo.default := FieldInfo.default field_info;
     FieldInfo.annotation := FieldInfo.annotation field_info;
     FieldInfo.json_schema_extra :=
       (fun extra =>
          {| extra_validator := None;
             extra_validator_args := extra_validator_args extra;
             extra_error_messages := extra_error_messages extra |})
       <$> FieldInfo.json_schema_extra field_info |}.

(** The class with no validator attached to the field [field_name]. *)
Definition detach (cls : ModelClass) (field_name : string) : ModelClass :=
  {| __name__ := __name__ cls;
     model_fields :=
       (fun field : string * FieldInfo.t =>
          if decide (field.1 = field_name)
          then (field.1, without_validator field.2)
          else field)
       <$> model_fields cls |}.

(** A run of registrations, first to last. *)
Definition register_all
    (registrations : list (string * Validator * Kwargs)) (w : World) : World :=
  fold_left
    (fun w '(name, validator, kwargs) =>
       (ParseModel.register_validator name validator kwargs w).2)
    registrations w.

(** The failure has no custom message that [customize_errors] would use:
    the table of the field named by the first path segment has no entry
    for the failure's kind, or an empty one.  A failure with an empty path
    is looked up under the name "unknown". *)
Definition no_custom_message (cls : ModelClass) (error : ErrorDetails.t) : Prop :=
  match ErrorDetails.loc error with
  | LocStr name :: _ =>
      ∀ table message,
        message_table cls name = Some table ->
        table !! ErrorDetails.type error = Some message ->
        message = ""
  | LocInt _ :: _ => True
  | [] => model_fields_get cls "unknown" = None
  end.

(** The fields of the schema that fail validation, in declaration order. *)
Definition offending_fields (cls : ModelClass) (kwargs : Kwargs) (w : World)
  : list (string * FieldInfo.t) :=
  filter (fun field => offending cls kwargs w field = true) (model_fields cls).

(** The error records and the field values that validating [kwargs] comes
    to over a list of fields. *)
Definition errors_of (cls : ModelClass) (kwargs : Kwargs) (w : World)
    (fields : list (string * FieldInfo.t)) : list ErrorDetails.t :=
  omap
    (fun field =>
       match field_outcome cls kwargs w field with
       | Return (inl error) => Some error
       | _ => None
       end)
    fields.

Definition values_of (cls : ModelClass) (kwargs : Kwargs) (w : World)
    (fields : list (string * FieldInfo.t)) (values : Kwargs) : Kwargs :=
  fold_left
    (fun values field =>
       match field_outcome cls kwargs w field with
       | Return (inr value) => <[field.1 := value]> values
       | _ => values
       end)
    fields values.

(** [self[key] = value], or nothing when that raises [KeyError]. *)
Definition setitem_or_skip (w : World) (self : Instance) (item : string * Value)
  : Instance :=
  match BaseModelPydantic.__setitem__ self item.1 item.2 w with
  | (Return self', _) => self'
  | (Raise _, _) => self
  end.

(** The value of the last item of [data] under [key]. *)
Fixpoint last_value (data : list (string * Value)) (key : string) : option Value :=
  match data with
  | [] => None
  | (k, v) :: data' =>
      match last_value data' key with
      | Some v' => Some v'
      | None => if decide (k = key) then Some v else None
      end
  end.

(** No field of the schema has a custom-message table. *)
Definition no_message_tables (cls : ModelClass) : Prop :=
  ∀ field, field ∈ model_fields cls ->
    ∀ extra, FieldInfo.json_schema_extra field.2 = Some extra ->
             extra_error_messages extra = None.

(** The custom message [customize_errors] finds for a failure with the
    path [loc] and the kind [kind]. *)
Definition custom_message_of
    (cls : ModelClass) (loc : list LocItem) (kind : string) : option string :=
  match
    match loc with
    | LocStr name :: _ => model_fields_get cls name
    | LocInt _ :: _ => None
    | [] => model_fields_get cls "unknown"
    end
  with
  | Some field_info =>
      match FieldInfo.json_schema_extra field_info with
      | Some extra => default ∅ (extra_error_messages extra) !! kind
      | None => None
      end
  | None => None
  end.

(** ** Sample validators, classes and worlds *)

Definition is_digit (c : Ascii.ascii) : bool :=
  Nat.leb 48 (Ascii.nat_of_ascii c) && Nat.leb (Ascii.nat_of_ascii c) 57.

Fixpoint all_digits (s : string) : bool :=
  match s with
  | EmptyString => true
  | String c s' => is_digit c && all_digits s'
  end.

(** A checking validator: a string of digits is returned as it is, anything
    else is rejected. *)
Definition digits_only : Validator :=
  fun value _ =>
    match value with
    | VStr s => if all_digits s then inr value else inl "digits expected"
    | _ => inl "string expected"
    end.

(** A transforming validator: the argument "prefix" is put in front of a
    string. *)
Definition add_prefix : Validator :=
  fun value kwargs =>
    match value, kwargs !! "prefix" with
    | VStr s, Some (VStr p) => inr (VStr (p +:+ s))
    | VStr s, _ => inr value
    | _, _ => inl "string expected"
    end.

(** A validator that accepts every value, whatever its arguments. *)
Definition accept_any : Validator := fun value _ => inr value.

(** The declared type [str]: strings pass, everything else is a type
    mismatch. *)
Definition str_type : Value -> CoreFailure + Value :=
  fun value =>
    match value with
    | VStr _ => inr value
    | _ => inl {| failure_type := "string_type";
                  failure_msg := "Input should be a valid string";
                  failure_ctx := None |}
    end.

Definition plain_field (default : Value) : FieldInfo.t :=
  {| FieldInfo.default := default;
     FieldInfo.annotation := str_type;
     FieldInfo.json_schema_extra := None |}.

Definition validated_field
    (default : Value) (validator_name : string) (args : option Kwargs)
    (messages : option (gmap string string)) : FieldInfo.t :=
  {| FieldInfo.default := default;
     FieldInfo.annotation := str_type;
     FieldInfo.json_schema_extra :=
       Some {| extra_validator := Some validator_name;
               extra_validator_args := args;
               extra_error_messages := messages |} |}.

(** [Phone: str = Field(..., json_schema_extra={"validator": "digits_only",
    "error_messages": {...}})] and [Name: str]. *)
Definition PhoneModel : ModelClass :=
  {| __name__ := "PhoneModel";
     model_fields :=
       [ ("Phone",
          validated_field PydanticUndefined "digits_only" None
            (Some {[ "string_type" := "bad format"; "missing" := "" ]}));
         ("Name", plain_field PydanticUndefined) ] |}.

(** [Tag: str = Field("x", json_schema_extra={"validator": "add_prefix",
    "validator_args": {"prefix": "#"}})]. *)
Definition TagModel : ModelClass :=
  {| __name__ := "TagModel";
     model_fields :=
       [ ("Tag",
          validated_field (VStr "x") "add_prefix"
            (Some {[ "prefix" := VStr "#" ]}) None) ] |}.

(** A field whose validator name is registered nowhere. *)
Definition DanglingModel : ModelClass :=
  {| __name__ := "DanglingModel";
     model_fields :=
       [ ("Code", validated_field PydanticUndefined "no_such_validator" None None) ] |}.

(** A field that overrides one of the two default arguments of its
    validator. *)
Definition MergeModel : ModelClass :=
  {| __name__ := "MergeModel";
     model_fields :=
       [ ("F",
          validated_field PydanticUndefined "accept_any"
            (Some {[ "b" := VInt 3 ]}) None) ] |}.

Definition empty_world : World :=
  {| _validators_registry := ∅; calls := [] |}.

(** The world after the registrations of the samples. *)
Definition demo_world : World :=
  ((_ <~ ParseModel.register_validator "digits_only" digits_only ∅ ;;
    _ <~ ParseModel.register_validator "add_prefix" add_prefix
           {[ "prefix" := VStr "+" ]} ;;
    ParseModel.register_validator "accept_any" accept_any
      {[ "a" := VInt 1; "b" := VInt 2 ]}) empty_world).2.

(** Two failures as the underlying library reports them for [PhoneModel]:
    a type mismatch on [Phone], and [Phone] missing. *)
Definition phone_type_mismatch : ErrorDetails.t :=
  {| ErrorDetails.type := "string_type";
     ErrorDetails.loc := [LocStr "Phone"];
     ErrorDetails.msg := "Input should be a valid string";
     ErrorDetails.input := Some (VInt 5);
     ErrorDetails.ctx := None;
     ErrorDetails.url := None |}.

Definition phone_missing : ErrorDetails.t :=
  {| ErrorDetails.type := "missing";
     ErrorDetails.loc := [LocStr "Phone"];
     ErrorDetails.msg := "Field required";
     ErrorDetails.input := Some (VDict ∅);
     ErrorDetails.ctx := None;
     ErrorDetails.url := None |}.

(** A payload for [PhoneModel] with two bad fields: [Phone] is not made of
    digits and [Name] is not a string. *)
Definition two_bad_fields : Kwargs :=
  {[ "Phone" := VStr "12a"; "Name" := VInt 5 ]}.

(** A valid instance of [PhoneModel], and the payload it is built from. *)
Definition ann_payload : Kwargs :=
  {[ "Phone" := VStr "138"; "Name" := VStr "Ann" ]}.

Definition ann : Instance :=
  {| __class__ := PhoneModel; __dict__ := ann_payload |}.

(** The instance of [TagModel] built from the tag "a", and the instance
    built from its own dictionary. *)
Definition tag_a : Instance :=
  {| __class__ := TagModel; __dict__ := {[ "Tag" := VStr "#a" ]} |}.

Definition tag_a_again : Instance :=
  {| __class__ := TagModel; __dict__ := {[ "Tag" := VStr "##a" ]} |}.

(** * Properties *)

(** ** Dictionaries and lists *)

Lemma dict_truthy_false {A : Type} (d : gmap string A) :
  dict_truthy d = false -> d = ∅.
Proof.
  unfold dict_truthy. destruct (map_to_list d) eqn:E; [|done].
  intros _. by apply map_to_list_empty_iff.
Qed.

Lemma snoc_neq {A : Type} (l : list A) (x : A) : (l ++ [x])%list ≠ l.
Proof.
  intros H. apply (f_equal length) in H.
  rewrite length_app in H. simpl in H. lia.
Qed.

Lemma dict_merge_override (a b : Kwargs) (k : string) (v : Value) :
  b !! k = Some v -> dict_merge a b !! k = Some v.
Proof. intros H. unfold dict_merge. by apply lookup_union_Some_l. Qed.

Lemma dict_merge_default (a b : Kwargs) (k : string) :
  b !! k = None -> dict_merge a b !! k = a !! k.
Proof. intros H. unfold dict_merge. by apply lookup_union_r. Qed.

(** ** The dispatcher *)

(** What [apply_custom_validators] does for a field whose attached
    validator is registered. *)
Lemma apply_custom_validators_registered
    cls w field_name validator_name override validator default_args value :
  attachment cls field_name = Some (validator_name, override) ->
  resolve w validator_name = Some (validator, default_args) ->
  ParseModel.apply_custom_validators cls value field_name w =
    if is_undefined value || is_None value
    then (Return value, w)
    else invoke validator value (dict_merge default_args override) w.
Proof.
  unfold attachment, resolve, ParseModel.apply_custom_validators.
  destruct (model_fields_get cls field_name) as [fi|]; simpl; [|done].
  destruct (FieldInfo.json_schema_extra fi) as [extra|]; simpl; [|done].
  destruct (extra_validator extra) as [vn|]; simpl; [|done].
  intros [= <- <-]. unfold bind, get_registry.
  destruct (_validators_registry w !! vn) as [[f d|f]|]; intros [= <- <-].
  - destruct (is_undefined value || is_None value); [done|].
    destruct (extra_validator_args extra) as [args|]; simpl;
      destruct (dict_truthy _) eqn:E; try done;
      by rewrite (dict_truthy_false _ E).
  - destruct (is_undefined value || is_None value); [done|].
    destruct (extra_validator_args extra) as [args|]; simpl;
      destruct (dict_truthy _) eqn:E; try done;
      by rewrite (dict_truthy_false _ E).
Qed.

Lemma skip_test_spec (value : Value) :
  is_undefined value || is_None value = true
  <-> value = PydanticUndefined ∨ value = VNone.
Proof.
  split.
  - destruct value; simpl; intros H; try discriminate; auto.
  - intros [-> | ->]; reflexivity.
Qed.

(** What [apply_custom_validators] does for a field whose attached
    validator name is not in the registry, or that has no validator. *)
Lemma apply_custom_validators_dangling
    cls w field_name validator_name override value :
  attachment cls field_name = Some (validator_name, override) ->
  _validators_registry w !! validator_name = None ->
  ParseModel.apply_custom_validators cls value field_name w = (Return value, w).
Proof.
  unfold attachment, ParseModel.apply_custom_validators.
  destruct (model_fields_get cls field_name) as [fi|]; simpl; [|done].
  destruct (FieldInfo.json_schema_extra fi) as [extra|]; simpl; [|done].
  destruct (extra_validator extra) as [vn|]; simpl; [|done].
  intros [= <- <-] H. unfold bind, get_registry. by rewrite H.
Qed.

Lemma apply_custom_validators_unattached cls w field_name field_info value :
  model_fields_get cls field_name = Some field_info ->
  attachment cls field_name = None ->
  ParseModel.apply_custom_validators cls value field_name w = (Return value, w).
Proof.
  unfold attachment, ParseModel.apply_custom_validators.
  intros ->. simpl.
  destruct (FieldInfo.json_schema_extra field_info) as [extra|]; simpl; [|done].
  by destruct (extra_validator extra).
Qed.

Lemma model_fields_get_detach cls field_name :
  model_fields_get (detach cls field_name) field_name
  = without_validator <$> model_fields_get cls field_name.
Proof.
  unfold model_fields_get, detach. simpl.
  induction (model_fields cls) as [|[k fi] l IH]; simpl; [done|].
  destruct (decide (k = field_name)) as [->|Hne]; simpl.
  - by rewrite decide_True.
  - by rewrite decide_False.
Qed.

Lemma attachment_detach cls field_name :
  attachment (detach cls field_name) field_name = None.
Proof.
  unfold attachment. rewrite model_fields_get_detach.
  destruct (model_fields_get cls field_name) as [fi|]; simpl; [|done].
  by destruct (FieldInfo.json_schema_extra fi).
Qed.

Lemma invoke_unless_undefined_or_none
    cls w field_name validator_name override validator default_args value :
  attachment cls field_name = Some (validator_name, override) ->
  resolve w validator_name = Some (validator, default_args) ->
  ¬ (value = PydanticUndefined ∨ value = VNone) ->
  ParseModel.apply_custom_validators cls value field_name w
  = invoke validator value (dict_merge default_args override) w.
Proof.
  intros Hatt Hres Hv.
  rewrite (apply_custom_validators_registered _ _ _ _ _ _ _ value Hatt Hres).
  destruct (is_undefined value || is_None value) eqn:E; [|done].
  apply skip_test_spec in E. by destruct Hv.
Qed.

Lemma dispatch_call_recorded
    cls w field_name validator_name override validator default_args value :
  attachment cls field_name = Some (validator_name, override) ->
  resolve w validator_name = Some (validator, default_args) ->
  ¬ (value = PydanticUndefined ∨ value = VNone) ->
  ∃ r, ParseModel.apply_custom_validators cls value field_name w
       = (r, {| _validators_registry := _validators_registry w;
                calls := (calls w ++
                            [{| call_validator := validator;
                                call_value := value;
                                call_kwargs := dict_merge default_args override |}])%list |}).
Proof.
  intros Hatt Hres Hv.
  rewrite (invoke_unless_undefined_or_none
             _ _ _ _ _ _ _ _ Hatt Hres Hv).
  unfold invoke. eauto.
Qed.

(** C1 (amended): for a field whose attached validator is registered, the
    dispatcher returns the raw value unchanged without calling the validator
    exactly when the value is [PydanticUndefined] or [None], whether the
    field is optional or not; every other value is handed to the resolved
    validator together with the merged arguments. *)
Theorem dispatch_skips_exactly_on_undefined_or_none
    cls w field_name validator_name override validator default_args value :
  attachment cls field_name = Some (validator_name, override) ->
  resolve w validator_name = Some (validator, default_args) ->
  (ParseModel.apply_custom_validators cls value field_name w = (Return value, w)
   <-> value = PydanticUndefined ∨ value = VNone)
  ∧ (¬ (value = PydanticUndefined ∨ value = VNone) ->
     ParseModel.apply_custom_validators cls value field_name w
     = invoke validator value (dict_merge default_args override) w).
Proof.
  intros Hatt Hres.
  rewrite (apply_custom_validators_registered _ _ _ _ _ _ _ value Hatt Hres).
  destruct (is_undefined value || is_None value) eqn:E.
  - apply skip_test_spec in E. split; [tauto|]. intros H. by destruct H.
  - assert (¬ (value = PydanticUndefined ∨ value = VNone)) as Hn.
    { rewrite <- skip_test_spec. congruence. }
    split; [|done]. split; [|tauto].
    unfold invoke. intros [= _ Hw]. exfalso.
    apply (f_equal calls) in Hw. simpl in Hw. by apply snoc_neq in Hw.
Qed.

Lemma dispatch_skips_exactly_on_undefined_or_none_witness :
  (ParseModel.apply_custom_validators PhoneModel (VStr "138") "Phone" demo_world
     = (Return (VStr "138"), demo_world)
   <-> VStr "138" = PydanticUndefined ∨ VStr "138" = VNone)
  ∧ (¬ (VStr "138" = PydanticUndefined ∨ VStr "138" = VNone) ->
     ParseModel.apply_custom_validators PhoneModel (VStr "138") "Phone" demo_world
     = invoke digits_only (VStr "138") (dict_merge ∅ ∅) demo_world).
Proof.
  apply (dispatch_skips_exactly_on_undefined_or_none
           PhoneModel demo_world "Phone" "digits_only" ∅ digits_only ∅ (VStr "138"));
    reflexivity.
Defined.

(** C1 as stated fails: [Phone] of [PhoneModel] is required, its validator
    is registered, and the value [None] is neither the undefined sentinel
    nor a null on an optional field; the dispatcher still returns it without
    calling the validator. *)
Lemma required_field_none_is_skipped :
  attachment PhoneModel "Phone" = Some ("digits_only", ∅)
  ∧ resolve demo_world "digits_only" = Some (digits_only, ∅)
  ∧ field_optional PhoneModel "Phone" = false
  ∧ ParseModel.apply_custom_validators PhoneModel VNone "Phone" demo_world
    = (Return VNone, demo_world)
  ∧ ¬ (VNone = PydanticUndefined
       ∨ (VNone = VNone ∧ field_optional PhoneModel "Phone" = true))
  ∧ ParseModel.apply_custom_validators PhoneModel VNone "Phone" demo_world
    ≠ invoke digits_only VNone (dict_merge ∅ ∅) demo_world.
Proof.
  repeat split; try reflexivity.
  - intros [H | [_ H]]; discriminate.
  - intros H. apply (f_equal fst) in H. vm_compute in H. discriminate.
Qed.

(** C2: the merged arguments hold every key of the default arguments, with
    the override's value for every key the override has and the default's
    value otherwise; these merged arguments are what the validator is
    called with; and the defaults a:1, b:2 with the override b:3 give
    a:1, b:3. *)
Theorem merged_arguments_keep_defaults_prefer_overrides
    (default_args override : Kwargs) :
  (∀ k, is_Some (default_args !! k) ->
        is_Some (dict_merge default_args override !! k))
  ∧ (∀ k v, override !! k = Some v ->
            dict_merge default_args override !! k = Some v)
  ∧ (∀ k, override !! k = None ->
          dict_merge default_args override !! k = default_args !! k)
  ∧ (∀ cls w field_name validator_name validator value,
       attachment cls field_name = Some (validator_name, override) ->
       resolve w validator_name = Some (validator, default_args) ->
       ¬ (value = PydanticUndefined ∨ value = VNone) ->
       calls (ParseModel.apply_custom_validators cls value field_name w).2
       = (calls w ++
            [{| call_validator := validator;
                call_value := value;
                call_kwargs := dict_merge default_args override |}])%list)
  ∧ dict_merge {[ "a" := VInt 1; "b" := VInt 2 ]} {[ "b" := VInt 3 ]}
    = {[ "a" := VInt 1; "b" := VInt 3 ]}
  ∧ calls (ParseModel.apply_custom_validators MergeModel (VStr "v") "F" demo_world).2
    = [{| call_validator := accept_any;
          call_value := VStr "v";
          call_kwargs := {[ "a" := VInt 1; "b" := VInt 3 ]} |}].
Proof.
  split; [|split; [|split; [|split; [|split]]]].
  - intros k [v Hv]. destruct (override !! k) as [v'|] eqn:E.
    + exists v'. by apply dict_merge_override.
    + exists v. by rewrite dict_merge_default.
  - intros k v. apply dict_merge_override.
  - intros k. apply dict_merge_default.
  - intros cls w field_name validator_name validator value Hatt Hres Hv.
    destruct (dispatch_call_recorded cls w field_name validator_name override
                validator default_args value Hatt Hres Hv) as [r ->].
    reflexivity.
  - vm_compute. reflexivity.
  - vm_compute. reflexivity.
Qed.

(** C5: when the validator name attached to a field is not in the registry,
    the dispatcher returns the raw value, raises nothing and calls nothing,
    exactly as it does for the same field with no validator attached. *)
Theorem dangling_validator_passes_through
    cls w field_name validator_name override value :
  attachment cls field_name = Some (validator_name, override) ->
  resolve w validator_name = None ->
  ParseModel.apply_custom_validators cls value field_name w = (Return value, w)
  ∧ ParseModel.apply_custom_validators cls value field_name w
    = ParseModel.apply_custom_validators (detach cls field_name) value field_name w.
Proof.
  intros Hatt Hres.
  assert (_validators_registry w !! validator_name = None) as Hreg.
  { unfold resolve in Hres.
    by destruct (_validators_registry w !! validator_name) as [[]|]. }
  rewrite (apply_custom_validators_dangling _ _ _ _ _ value Hatt Hreg).
  split; [done|].
  assert (is_Some (model_fields_get cls field_name)) as [fi Hfi].
  { unfold attachment in Hatt.
    destruct (model_fields_get cls field_name); [eauto|done]. }
  symmetry.
  apply (apply_custom_validators_unattached _ _ _ (without_validator fi)).
  - by rewrite model_fields_get_detach, Hfi.
  - apply attachment_detach.
Qed.

Lemma dangling_validator_passes_through_witness :
  ParseModel.apply_custom_validators DanglingModel (VStr "A1") "Code" demo_world
  = (Return (VStr "A1"), demo_world)
  ∧ ParseModel.apply_custom_validators DanglingModel (VStr "A1") "Code" demo_world
    = ParseModel.apply_custom_validators
        (detach DanglingModel "Code") (VStr "A1") "Code" demo_world.
Proof.
  apply (dangling_validator_passes_through
           DanglingModel demo_world "Code" "no_such_validator" ∅ (VStr "A1"));
    reflexivity.
Defined.

Lemma resolve_register_ne w name name' validator kwargs :
  name' ≠ name ->
  resolve (ParseModel.register_validator name' validator kwargs w).2 name
  = resolve w name.
Proof.
  intros Hne. unfold resolve, ParseModel.register_validator. simpl.
  by rewrite lookup_insert_ne.
Qed.

Lemma resolve_register_all registrations w name :
  Forall (fun registration => registration.1.1 ≠ name) registrations ->
  resolve (register_all registrations w) name = resolve w name.
Proof.
  revert w. induction registrations as [|[[n f] a] l IH]; intros w Hall;
    [done|].
  apply Forall_cons in Hall as [Hne Hall]. simpl in Hne.
  unfold register_all. simpl. fold (register_all l).
  rewrite (IH _ Hall). by apply resolve_register_ne.
Qed.

(** C6: registering a second function and default arguments under a name
    that is already registered raises nothing and replaces the entry; from
    then on, also after registrations under other names, the name resolves
    to the second function with its default arguments, and the dispatcher
    calls the second function with them. *)
Theorem second_registration_replaces_first
    (w : World) (name : string) (f1 f2 : Validator) (a1 a2 : Kwargs) :
  let r1 := ParseModel.register_validator name f1 a1 w in
  let r2 := ParseModel.register_validator name f2 a2 r1.2 in
  r1.1 = Return tt
  ∧ r2.1 = Return tt
  ∧ _validators_registry r2.2
    = <[name := EntryTuple f2 a2]> (_validators_registry w)
  ∧ resolve r2.2 name = Some (f2, a2)
  ∧ (∀ registrations,
       Forall (fun registration => registration.1.1 ≠ name) registrations ->
       resolve (register_all registrations r2.2) name = Some (f2, a2))
  ∧ (∀ cls field_name override value,
       attachment cls field_name = Some (name, override) ->
       ¬ (value = PydanticUndefined ∨ value = VNone) ->
       ParseModel.apply_custom_validators cls value field_name r2.2
       = invoke f2 value (dict_merge a2 override) r2.2).
Proof.
  intros r1 r2.
  assert (resolve r2.2 name = Some (f2, a2)) as Hres.
  { unfold resolve. simpl. by rewrite lookup_insert_eq. }
  repeat split; try done.
  - simpl. by rewrite insert_insert_eq.
  - intros registrations Hall. by rewrite resolve_register_all.
  - intros cls field_name override value Hatt Hv.
    by apply (invoke_unless_undefined_or_none
                cls r2.2 field_name name override f2 a2 value Hatt Hres).
Qed.

(** ** Indexed assignment and bulk update *)

Lemma in_model_fields_true cls name :
  in_model_fields cls name = true <-> name ∈ (model_fields cls).*1.
Proof. unfold in_model_fields. by rewrite bool_decide_eq_true. Qed.

Lemma in_model_fields_false cls name :
  in_model_fields cls name = false <-> name ∉ (model_fields cls).*1.
Proof. unfold in_model_fields. by rewrite bool_decide_eq_false. Qed.

(** C9: [__setitem__] raises [KeyError] exactly when the name is not a field
    of the schema; for a field of the schema it stores the value as given,
    leaves every other attribute alone and calls no validator (the record
    of validator calls, like the registry, is what it was). *)
Theorem setitem_rejects_unknown_names_and_stores_unvalidated
    (self : Instance) (name : string) (value : Value) (w : World) :
  (name ∉ BaseModelPydantic.keys self
   <-> ∃ message,
         BaseModelPydantic.__setitem__ self name value w
         = (Raise (KeyError message), w))
  ∧ (name ∈ BaseModelPydantic.keys self ->
     ∃ self',
       BaseModelPydantic.__setitem__ self name value w = (Return self', w)
       ∧ __class__ self' = __class__ self
       ∧ __dict__ self' !! name = Some value
       ∧ (∀ other, other ≠ name ->
                   __dict__ self' !! other = __dict__ self !! other)
       ∧ BaseModelPydantic.__getitem__ self' name w = (Return value, w))
  ∧ calls (BaseModelPydantic.__setitem__ self name value w).2 = calls w.
Proof.
  unfold BaseModelPydantic.keys, BaseModelPydantic.__setitem__.
  destruct (in_model_fields (__class__ self) name) eqn:E; simpl.
  - apply in_model_fields_true in E. split; [|split; [|done]].
    + split; [done|]. intros [message H]. discriminate.
    + intros _. eexists. split; [reflexivity|]. simpl.
      split; [done|]. split; [by rewrite lookup_insert_eq|]. split.
      * intros other Hne. by rewrite lookup_insert_ne.
      * unfold BaseModelPydantic.__getitem__. simpl.
        assert (in_model_fields (__class__ self) name = true) as ->
          by by apply in_model_fields_true.
        simpl. unfold BaseModel.getattr. simpl.
        by rewrite lookup_insert_eq.
  - apply in_model_fields_false in E. split; [|split; [done|done]].
    split; [|done]. intros _. eexists. reflexivity.
Qed.

Lemma update_fold_class (data : list (string * Value)) (self : Instance) :
  __class__
    (fold_left
       (fun self '(key, value) =>
          if in_model_fields (__class__ self) key
          then BaseModel.setattr self key value
          else self)
       data self)
  = __class__ self.
Proof.
  revert self. induction data as [|[key value] data IH]; intros self; [done|].
  simpl. rewrite IH. by destruct (in_model_fields (__class__ self) key).
Qed.

Lemma update_fold_frame (data : list (string * Value)) (self : Instance) name :
  name ∉ (model_fields (__class__ self)).*1 ∨ name ∉ data.*1 ->
  __dict__
    (fold_left
       (fun self '(key, value) =>
          if in_model_fields (__class__ self) key
          then BaseModel.setattr self key value
          else self)
       data self) !! name
  = __dict__ self !! name.
Proof.
  revert self. induction data as [|[key value] data IH]; intros self H; [done|].
  simpl. rewrite IH.
  - destruct (in_model_fields (__class__ self) key) eqn:E; [|done].
    simpl. apply lookup_insert_ne. intros ->.
    apply in_model_fields_true in E. destruct H as [H|H]; [done|].
    apply H. simpl. apply list_elem_of_here.
  - destruct (in_model_fields (__class__ self) key); simpl;
      (destruct H as [H|H]; [by left|right]);
      intros Hin; apply H; simpl; by apply list_elem_of_further.
Qed.

(** C10: [update] raises nothing; a key of the update mapping that is not a
    field of the schema changes nothing and creates no attribute, and every
    name the mapping does not mention keeps its value. *)
Theorem update_ignores_unknown_keys_and_keeps_other_fields
    (self : Instance) (data : list (string * Value)) (w : World) :
  ∃ self',
    BaseModelPydantic.update self data w = (Return self', w)
    ∧ __class__ self' = __class__ self
    ∧ (∀ key, key ∉ BaseModelPydantic.keys self ->
              __dict__ self' !! key = __dict__ self !! key)
    ∧ (∀ name, name ∉ data.*1 ->
               __dict__ self' !! name = __dict__ self !! name).
Proof.
  eexists. split; [reflexivity|]. split; [apply update_fold_class|].
  split.
  - intros key H. apply update_fold_frame. by left.
  - intros name H. apply update_fold_frame. by right.
Qed.

(** ** The error translator *)

Lemma customize_errors_fold cls errors acc :
  fold_left
    (fun custom_errors error =>
       (custom_errors ++ [ParseModel.customize_error cls error])%list)
    errors acc
  = (acc ++ (ParseModel.customize_error cls <$> errors))%list.
Proof.
  revert acc. induction errors as [|e errors IH]; intros acc; simpl.
  - by rewrite app_nil_r.
  - rewrite IH. by rewrite <- app_assoc.
Qed.

Lemma customize_errors_fmap cls errors :
  ParseModel.customize_errors cls errors
  = ParseModel.customize_error cls <$> errors.
Proof. unfold ParseModel.customize_errors. by rewrite customize_errors_fold. Qed.

Lemma assoc_get_None {A : Type} (l : list (string * A)) name :
  assoc_get l name = None <-> name ∉ l.*1.
Proof.
  induction l as [|[k a] l IH]; simpl.
  - split; [intros _; apply not_elem_of_nil|done].
  - rewrite not_elem_of_cons. destruct (decide (k = name)) as [->|Hne].
    + split; [done|]. by intros [? _].
    + rewrite IH. split; [by split|by intros [_ ?]].
Qed.

Lemma guarded_get cls name :
  (if in_model_fields cls name then model_fields_get cls name else None)
  = model_fields_get cls name.
Proof.
  destruct (in_model_fields cls name) eqn:E; [done|].
  apply in_model_fields_false in E. symmetry. by apply assoc_get_None.
Qed.

Lemma customize_error_loc cls error :
  ErrorDetails.loc (ParseModel.customize_error cls error) = ErrorDetails.loc error.
Proof.
  unfold ParseModel.customize_error.
  repeat (case_match; simpl; try done).
Qed.

Lemma customize_error_type cls error :
  ErrorDetails.type (ParseModel.customize_error cls error) = ErrorDetails.type error.
Proof.
  unfold ParseModel.customize_error.
  repeat (case_match; simpl; try done).
Qed.

Lemma customize_error_ctx cls error :
  ctx_mapping (ParseModel.customize_error cls error) = ctx_mapping error.
Proof.
  unfold ParseModel.customize_error, ctx_mapping.
  repeat (case_match; simpl; try done).
Qed.

Lemma customize_error_replaced cls error name rest table message :
  ErrorDetails.loc error = LocStr name :: rest ->
  message_table cls name = Some table ->
  table !! ErrorDetails.type error = Some message ->
  message ≠ "" ->
  ErrorDetails.msg (ParseModel.customize_error cls error) = message.
Proof.
  unfold ParseModel.customize_error, message_table.
  intros -> Htable Hm Hne. rewrite guarded_get.
  destruct (model_fields_get cls name) as [fi|]; simpl in *; [|done].
  destruct (FieldInfo.json_schema_extra fi) as [extra|]; simpl in *; [|done].
  rewrite Htable, Hm. by destruct message.
Qed.

Lemma customize_error_kept cls error :
  no_custom_message cls error -> ParseModel.customize_error cls error = error.
Proof.
  unfold ParseModel.customize_error, no_custom_message, message_table.
  destruct (ErrorDetails.loc error) as [|[name|i] rest].
  - rewrite guarded_get. by intros ->.
  - rewrite guarded_get.
    destruct (model_fields_get cls name) as [fi|]; simpl; [|done].
    destruct (FieldInfo.json_schema_extra fi) as [extra|]; simpl; [|done].
    destruct (extra_error_messages extra) as [table|]; simpl.
    + destruct (table !! ErrorDetails.type error) as [message|] eqn:E; [|done].
      intros H. by rewrite (H table message eq_refl E).
    + by rewrite lookup_empty.
  - done.
Qed.

(** C4 (amended): [customize_errors] keeps the number and order of the
    failures and, for each of them, the field path, the failure kind and
    the context (as a mapping: no context is the empty one).  When the
    table of the field named by the first path segment has a non-empty
    text for the failure's kind, the message becomes that text; a failure
    with no such text (for an empty path: when the schema has no field
    named "unknown") is passed through as generated. *)
Theorem customize_errors_replaces_message_only
    (cls : ModelClass) (errors : list ErrorDetails.t) (i : nat)
    (error : ErrorDetails.t) :
  errors !! i = Some error ->
  length (ParseModel.customize_errors cls errors) = length errors
  ∧ ∃ error',
      ParseModel.customize_errors cls errors !! i = Some error'
      ∧ ErrorDetails.loc error' = ErrorDetails.loc error
      ∧ ErrorDetails.type error' = ErrorDetails.type error
      ∧ ctx_mapping error' = ctx_mapping error
      ∧ (∀ name rest table message,
           ErrorDetails.loc error = LocStr name :: rest ->
           message_table cls name = Some table ->
           table !! ErrorDetails.type error = Some message ->
           message ≠ "" ->
           ErrorDetails.msg error' = message)
      ∧ (no_custom_message cls error -> error' = error).
Proof.
  intros Hi. rewrite customize_errors_fmap. split; [apply length_fmap|].
  exists (ParseModel.customize_error cls error).
  split; [by rewrite list_lookup_fmap, Hi|].
  split; [apply customize_error_loc|].
  split; [apply customize_error_type|].
  split; [apply customize_error_ctx|].
  split; [apply customize_error_replaced|apply customize_error_kept].
Qed.

Lemma customize_errors_replaces_message_only_witness :
  length (ParseModel.customize_errors PhoneModel [phone_type_mismatch; phone_missing])
  = length [phone_type_mismatch; phone_missing]
  ∧ ∃ error',
      ParseModel.customize_errors PhoneModel [phone_type_mismatch; phone_missing] !! 0%nat
      = Some error'
      ∧ ErrorDetails.loc error' = ErrorDetails.loc phone_type_mismatch
      ∧ ErrorDetails.type error' = ErrorDetails.type phone_type_mismatch
      ∧ ctx_mapping error' = ctx_mapping phone_type_mismatch
      ∧ (∀ name rest table message,
           ErrorDetails.loc phone_type_mismatch = LocStr name :: rest ->
           message_table PhoneModel name = Some table ->
           table !! ErrorDetails.type phone_type_mismatch = Some message ->
           message ≠ "" ->
           ErrorDetails.msg error' = message)
      ∧ (no_custom_message PhoneModel phone_type_mismatch ->
         error' = phone_type_mismatch).
Proof.
  apply (customize_errors_replaces_message_only
           PhoneModel [phone_type_mismatch; phone_missing] 0 phone_type_mismatch).
  reflexivity.
Defined.

(** The message override of the specification: a type mismatch on a field
    whose table maps that kind to "bad format". *)
Example customize_errors_bad_format :
  ErrorDetails.msg <$> ParseModel.customize_errors PhoneModel [phone_type_mismatch]
  = ["bad format"].
Proof. reflexivity. Qed.

(** C4 as stated fails: the table of [Phone] has an entry for the kind
    "missing", the empty text, and the translated failure keeps the
    generated message instead of taking the custom text. *)
Lemma empty_custom_message_is_not_used :
  (∃ table,
     message_table PhoneModel "Phone" = Some table
     ∧ table !! ErrorDetails.type phone_missing = Some "")
  ∧ ErrorDetails.msg <$> ParseModel.customize_errors PhoneModel [phone_missing]
    = ["Field required"]
  ∧ ErrorDetails.msg <$> ParseModel.customize_errors PhoneModel [phone_missing]
    ≠ [""].
Proof.
  split; [|split].
  - eexists. split; reflexivity.
  - reflexivity.
  - discriminate.
Qed.

(** ** Construction *)

(** The dispatcher reads the registry and never writes it; its result does
    not depend on the calls recorded so far. *)
Lemma apply_custom_validators_registry cls value field_name w :
  _validators_registry (ParseModel.apply_custom_validators cls value field_name w).2
  = _validators_registry w.
Proof.
  unfold ParseModel.apply_custom_validators, bind, get_registry, invoke, ret, raise.
  repeat (case_match; simpl; try done).
Qed.

Lemma apply_custom_validators_result cls value field_name w1 w2 :
  _validators_registry w1 = _validators_registry w2 ->
  (ParseModel.apply_custom_validators cls value field_name w1).1
  = (ParseModel.apply_custom_validators cls value field_name w2).1.
Proof.
  intros H. unfold ParseModel.apply_custom_validators.
  destruct (model_fields_get cls field_name) as [fi|]; [|done].
  destruct (FieldInfo.json_schema_extra fi) as [extra|]; [|done].
  destruct (extra_validator extra) as [vn|]; [|done].
  unfold bind, get_registry. simpl. rewrite H.
  destruct (_validators_registry w2 !! vn) as [[f d|f]|]; simpl; [| |done];
    (destruct (is_undefined value || is_None value); [done|];
     by destruct (dict_truthy _)).
Qed.

Lemma apply_custom_validators_raises cls value field_name w e :
  is_Some (model_fields_get cls field_name) ->
  (ParseModel.apply_custom_validators cls value field_name w).1 = Raise e ->
  ∃ message, e = ValueError message.
Proof.
  intros [fi Hfi].
  unfold ParseModel.apply_custom_validators, bind, get_registry, invoke, ret, raise.
  rewrite Hfi.
  repeat (case_match; simpl; try done); intros [= <-]; eauto.
Qed.

(** One field: the registry is left as it is, the outcome depends on the
    registry only, and a field of the schema always comes to an error
    record or a value. *)
Lemma validate_field_registry cls kwargs field_name field_info w :
  _validators_registry
    (BaseModel.validate_field ParseModel.apply_custom_validators
       cls kwargs field_name field_info w).2
  = _validators_registry w.
Proof.
  unfold BaseModel.validate_field.
  destruct (kwargs !! field_name) as [value|].
  - unfold bind, attempt.
    pose proof (apply_custom_validators_registry cls value field_name w) as H.
    destruct (ParseModel.apply_custom_validators cls value field_name w)
      as [r w1]. simpl in *.
    destruct r as [[]|value']; simpl; try done.
    by destruct (FieldInfo.annotation field_info value').
  - by destruct (FieldInfo.is_required field_info).
Qed.

Lemma validate_field_result cls kwargs field_name field_info w1 w2 :
  _validators_registry w1 = _validators_registry w2 ->
  (BaseModel.validate_field ParseModel.apply_custom_validators
     cls kwargs field_name field_info w1).1
  = (BaseModel.validate_field ParseModel.apply_custom_validators
       cls kwargs field_name field_info w2).1.
Proof.
  intros Hreg. unfold BaseModel.validate_field.
  destruct (kwargs !! field_name) as [value|].
  - unfold bind, attempt.
    pose proof (apply_custom_validators_result cls value field_name w1 w2 Hreg) as H.
    destruct (ParseModel.apply_custom_validators cls value field_name w1)
      as [r1 w1'].
    destruct (ParseModel.apply_custom_validators cls value field_name w2)
      as [r2 w2']. simpl in *. subst r2.
    destruct r1 as [[]|value']; simpl; try done.
    by destruct (FieldInfo.annotation field_info value').
  - by destruct (FieldInfo.is_required field_info).
Qed.

Lemma validate_field_returns cls kwargs field_name field_info w :
  is_Some (model_fields_get cls field_name) ->
  ∃ r, (BaseModel.validate_field ParseModel.apply_custom_validators
          cls kwargs field_name field_info w).1 = Return r.
Proof.
  intros Hsome. unfold BaseModel.validate_field.
  destruct (kwargs !! field_name) as [value|].
  - unfold bind, attempt.
    pose proof (apply_custom_validators_raises cls value field_name w) as H.
    destruct (ParseModel.apply_custom_validators cls value field_name w)
      as [r w1]. simpl in *.
    destruct r as [e|value']; simpl.
    + destruct (H e Hsome eq_refl) as [message ->]. simpl. eauto.
    + destruct (FieldInfo.annotation field_info value'); simpl; eauto.
  - destruct (FieldInfo.is_required field_info); simpl; eauto.
Qed.

Lemma validate_field_error_loc cls kwargs field_name field_info w error :
  (BaseModel.validate_field ParseModel.apply_custom_validators
     cls kwargs field_name field_info w).1 = Return (inl error) ->
  ErrorDetails.loc error = [LocStr field_name].
Proof.
  unfold BaseModel.validate_field.
  destruct (kwargs !! field_name) as [value|].
  - unfold bind, attempt.
    destruct (ParseModel.apply_custom_validators cls value field_name w)
      as [r w1]. simpl.
    destruct r as [[]|value']; simpl; try done.
    + by intros [= <-].
    + destruct (FieldInfo.annotation field_info value'); simpl; [|done].
      by intros [= <-].
  - destruct (FieldInfo.is_required field_info); simpl; [|done].
    by intros [= <-].
Qed.

Lemma validate_field_supplied cls kwargs1 kwargs2 field_name field_info w :
  is_Some (kwargs1 !! field_name) ->
  kwargs1 !! field_name = kwargs2 !! field_name ->
  BaseModel.validate_field ParseModel.apply_custom_validators
    cls kwargs1 field_name field_info w
  = BaseModel.validate_field ParseModel.apply_custom_validators
      cls kwargs2 field_name field_info w.
Proof.
  intros [value Hv] Heq. unfold BaseModel.validate_field.
  by rewrite <- Heq, Hv.
Qed.

Lemma validate_field_default cls kwargs field_name field_info w :
  kwargs !! field_name = None ->
  FieldInfo.default field_info ≠ PydanticUndefined ->
  BaseModel.validate_field ParseModel.apply_custom_validators
    cls kwargs field_name field_info w
  = (Return (inr (FieldInfo.default field_info)), w).
Proof.
  intros Hk Hd. unfold BaseModel.validate_field, FieldInfo.is_required.
  rewrite Hk. by destruct (FieldInfo.default field_info).
Qed.

Lemma field_outcome_registry cls kwargs w1 w2 field :
  _validators_registry w1 = _validators_registry w2 ->
  field_outcome cls kwargs w1 field = field_outcome cls kwargs w2 field.
Proof. intros H. unfold field_outcome. by apply validate_field_result. Qed.

Lemma errors_of_cons cls kwargs w field fields :
  errors_of cls kwargs w (field :: fields)
  = match field_outcome cls kwargs w field with
    | Return (inl error) => error :: errors_of cls kwargs w fields
    | _ => errors_of cls kwargs w fields
    end.
Proof.
  unfold errors_of. simpl.
  by destruct (field_outcome cls kwargs w field) as [|[|]].
Qed.

Lemma values_of_cons cls kwargs w field fields values :
  values_of cls kwargs w (field :: fields) values
  = values_of cls kwargs w fields
      match field_outcome cls kwargs w field with
      | Return (inr value) => <[field.1 := value]> values
      | _ => values
      end.
Proof. reflexivity. Qed.

Lemma errors_of_registry cls kwargs w1 w2 fields :
  _validators_registry w1 = _validators_registry w2 ->
  errors_of cls kwargs w1 fields = errors_of cls kwargs w2 fields.
Proof.
  intros H. induction fields as [|field fields IH]; [done|].
  by rewrite !errors_of_cons, IH, (field_outcome_registry cls kwargs w1 w2 field H).
Qed.

Lemma values_of_registry cls kwargs w1 w2 fields values :
  _validators_registry w1 = _validators_registry w2 ->
  values_of cls kwargs w1 fields values = values_of cls kwargs w2 fields values.
Proof.
  intros H. revert values.
  induction fields as [|field fields IH]; intros values; [done|].
  by rewrite !values_of_cons, IH, (field_outcome_registry cls kwargs w1 w2 field H).
Qed.

(** The loop over the fields: every field is handled, the errors are
    collected in order and the values are stored. *)
Lemma validate_fields_spec cls kwargs fields values errors w :
  (∀ field, field ∈ fields -> is_Some (model_fields_get cls field.1)) ->
  ∃ w',
    BaseModel.validate_fields ParseModel.apply_custom_validators
      cls kwargs fields values errors w
    = (Return (values_of cls kwargs w fields values,
               (errors ++ errors_of cls kwargs w fields)%list), w')
    ∧ _validators_registry w' = _validators_registry w.
Proof.
  revert values errors w.
  induction fields as [|[field_name field_info] fields IH];
    intros values errors w Hsome.
  - simpl. exists w. unfold ret, errors_of. simpl. by rewrite app_nil_r.
  - assert (∀ field, field ∈ fields -> is_Some (model_fields_get cls field.1))
      as Hsome'.
    { intros field Hin. apply Hsome. by apply list_elem_of_further. }
    pose proof (validate_field_registry cls kwargs field_name field_info w) as Hreg.
    destruct (validate_field_returns cls kwargs field_name field_info w)
      as [r Hr].
    { apply (Hsome (field_name, field_info)), list_elem_of_here. }
    assert (field_outcome cls kwargs w (field_name, field_info) = Return r)
      as Hout by exact Hr.
    rewrite errors_of_cons, values_of_cons, Hout.
    simpl. unfold bind.
    destruct (BaseModel.validate_field ParseModel.apply_custom_validators
                cls kwargs field_name field_info w) as [r' w1].
    simpl in Hr, Hreg. subst r'.
    destruct r as [error|value].
    + destruct (IH values (errors ++ [error])%list w1 Hsome') as (w' & -> & Hw').
      exists w'. split; [|congruence].
      rewrite (errors_of_registry cls kwargs w1 w fields Hreg).
      rewrite (values_of_registry cls kwargs w1 w fields values Hreg).
      by rewrite <- app_assoc.
    + destruct (IH (<[field_name := value]> values) errors w1 Hsome')
        as (w' & -> & Hw').
      exists w'. split; [|congruence].
      rewrite (errors_of_registry cls kwargs w1 w fields Hreg).
      by rewrite (values_of_registry cls kwargs w1 w fields _ Hreg).
Qed.

Lemma model_fields_member cls field :
  field ∈ model_fields cls -> is_Some (model_fields_get cls field.1).
Proof.
  intros Hin. unfold model_fields_get.
  destruct (assoc_get (model_fields cls) field.1) eqn:E; [eauto|].
  apply assoc_get_None in E. destruct E.
  apply list_elem_of_fmap. eauto.
Qed.

Lemma from_data_payload (data : option Kwargs) :
  match data with
  | Some d => if dict_truthy d then d else ∅
  | None => ∅
  end = payload_of data.
Proof.
  destruct data as [d|]; simpl; [|done].
  destruct (dict_truthy d) eqn:E; [done|].
  by rewrite (dict_truthy_false d E).
Qed.

(** What construction comes to: the instance of the field values when no
    field fails, and otherwise one [ValidationError] with the translated
    error records of all the failing fields. *)
Lemma from_data_spec cls data w :
  ∃ w',
    _validators_registry w' = _validators_registry w
    ∧ ParseModel.from_data cls data w
      = (match errors_of cls (ParseModel.fill_defaults cls (payload_of data)) w
                 (model_fields cls) with
         | [] =>
             Return {| __class__ := cls;
                       __dict__ :=
                         values_of cls
                           (ParseModel.fill_defaults cls (payload_of data)) w
                           (model_fields cls) ∅ |}
         | error :: errors =>
             Raise (ValidationError (__name__ cls)
                      (ParseModel.customize_errors cls (error :: errors)))
         end, w').
Proof.
  unfold ParseModel.from_data, BaseModelPydantic.from_data.
  rewrite from_data_payload.
  unfold ParseModel.model_validate, BaseModel.model_validate,
    ParseModel.__init__, BaseModel.__init__, bind, attempt.
  destruct (validate_fields_spec cls
              (ParseModel.fill_defaults cls (payload_of data))
              (model_fields cls) ∅ [] w) as (w' & -> & Hw').
  { intros field. apply model_fields_member. }
  exists w'. split; [done|]. simpl.
  by destruct (errors_of _ _ _ _).
Qed.

Lemma errors_of_locs cls kwargs w fields :
  ErrorDetails.loc <$> errors_of cls kwargs w fields
  = (fun field : string * FieldInfo.t => [LocStr field.1])
    <$> filter (fun field => offending cls kwargs w field = true) fields.
Proof.
  induction fields as [|field fields IH]; [done|].
  rewrite errors_of_cons, filter_cons.
  destruct (decide (offending cls kwargs w field = true)) as [Hoff|Hoff];
    unfold offending in Hoff;
    destruct (field_outcome cls kwargs w field) as [e|[error|value]] eqn:E;
    try done.
  rewrite !fmap_cons, IH. f_equal.
  destruct field as [field_name field_info].
  by apply (validate_field_error_loc cls kwargs field_name field_info w).
Qed.

Lemma customize_errors_locs cls errors :
  ErrorDetails.loc <$> ParseModel.customize_errors cls errors
  = ErrorDetails.loc <$> errors.
Proof.
  rewrite customize_errors_fmap, <- list_fmap_compose.
  apply list_fmap_ext. intros i error _. simpl. apply customize_error_loc.
Qed.

Lemma errors_of_length cls kwargs w :
  length (errors_of cls kwargs w (model_fields cls))
  = length (offending_fields cls kwargs w).
Proof.
  unfold offending_fields.
  rewrite <- (length_fmap ErrorDetails.loc), errors_of_locs.
  apply length_fmap.
Qed.

(** C3: construction either returns an instance, when no field fails, or
    raises one [ValidationError] whose batch is not empty and holds one
    error record for every failing field, in declaration order; no failing
    field is left out. *)
Theorem failures_are_reported_in_one_batch
    (cls : ModelClass) (data : option Kwargs) (w : World) :
  let kwargs := ParseModel.fill_defaults cls (payload_of data) in
  (offending_fields cls kwargs w = [] ->
   ∃ instance w', ParseModel.from_data cls data w = (Return instance, w'))
  ∧ (offending_fields cls kwargs w ≠ [] ->
     ∃ errors w',
       ParseModel.from_data cls data w
       = (Raise (ValidationError (__name__ cls) errors), w')
       ∧ errors ≠ []
       ∧ length errors = length (offending_fields cls kwargs w)
       ∧ ErrorDetails.loc <$> errors
         = (fun field : string * FieldInfo.t => [LocStr field.1])
           <$> offending_fields cls kwargs w
       ∧ ∀ field,
           field ∈ model_fields cls ->
           offending cls kwargs w field = true ->
           ∃ error, error ∈ errors ∧ ErrorDetails.loc error = [LocStr field.1]).
Proof.
  intros kwargs.
  destruct (from_data_spec cls data w) as (w' & _ & Hrun). fold kwargs in Hrun.
  pose proof (errors_of_length cls kwargs w) as Hlen.
  pose proof (errors_of_locs cls kwargs w (model_fields cls)) as Hlocs.
  fold (offending_fields cls kwargs w) in Hlocs.
  destruct (errors_of cls kwargs w (model_fields cls)) as [|error errors] eqn:E.
  - split; [eauto|]. intros Hbad. destruct Hbad.
    destruct (offending_fields cls kwargs w); [done|discriminate].
  - split.
    { intros Hnil. rewrite Hnil in Hlen. discriminate. }
    intros _. exists (ParseModel.customize_errors cls (error :: errors)), w'.
    assert (ErrorDetails.loc <$> ParseModel.customize_errors cls (error :: errors)
            = (fun field : string * FieldInfo.t => [LocStr field.1])
              <$> offending_fields cls kwargs w) as Hl.
    { by rewrite customize_errors_locs. }
    split; [done|]. split.
    { rewrite customize_errors_fmap. discriminate. }
    split.
    { rewrite customize_errors_fmap, length_fmap. exact Hlen. }
    split; [exact Hl|].
    intros field Hin Hoff.
    assert ([LocStr field.1]
            ∈ ErrorDetails.loc <$> ParseModel.customize_errors cls (error :: errors))
      as Hmem.
    { rewrite Hl. apply list_elem_of_fmap. exists field. split; [done|].
      unfold offending_fields. by apply list_elem_of_filter. }
    apply list_elem_of_fmap in Hmem as (e & He & Hine). eauto.
Qed.

Lemma failures_are_reported_in_one_batch_witness :
  ∃ errors w',
    ParseModel.from_data PhoneModel (Some two_bad_fields) demo_world
    = (Raise (ValidationError (__name__ PhoneModel) errors), w')
    ∧ errors ≠ []
    ∧ length errors
      = length (offending_fields PhoneModel
                  (ParseModel.fill_defaults PhoneModel (payload_of (Some two_bad_fields)))
                  demo_world)
    ∧ ErrorDetails.loc <$> errors
      = (fun field : string * FieldInfo.t => [LocStr field.1])
        <$> offending_fields PhoneModel
              (ParseModel.fill_defaults PhoneModel (payload_of (Some two_bad_fields)))
              demo_world
    ∧ ∀ field,
        field ∈ model_fields PhoneModel ->
        offending PhoneModel
          (ParseModel.fill_defaults PhoneModel (payload_of (Some two_bad_fields)))
          demo_world field = true ->
        ∃ error, error ∈ errors ∧ ErrorDetails.loc error = [LocStr field.1].
Proof.
  apply (proj2 (failures_are_reported_in_one_batch
                  PhoneModel (Some two_bad_fields) demo_world)).
  vm_compute. discriminate.
Defined.

(** Both bad fields of the payload are in the one batch, in order. *)
Example two_bad_fields_reported_together :
  ∃ errors w',
    ParseModel.from_data PhoneModel (Some two_bad_fields) demo_world
    = (Raise (ValidationError "PhoneModel" errors), w')
    ∧ (fun error => (ErrorDetails.loc error, ErrorDetails.type error)) <$> errors
      = [([LocStr "Phone"], "value_error"); ([LocStr "Name"], "string_type")].
Proof. eexists _, _. split; vm_compute; reflexivity. Qed.

(** ** Defaults *)

Lemma NoDup_fst_unique {A : Type} (l : list (string * A)) k a b :
  NoDup l.*1 -> (k, a) ∈ l -> (k, b) ∈ l -> a = b.
Proof.
  induction l as [|[k' c] l IH]; simpl; intros Hnd Ha Hb.
  - by apply elem_of_nil in Ha.
  - apply NoDup_cons in Hnd as [Hnotin Hnd].
    apply elem_of_cons in Ha as [Ha|Ha];
      apply elem_of_cons in Hb as [Hb|Hb].
    + congruence.
    + injection Ha as -> ->. destruct Hnotin.
      apply list_elem_of_fmap. by exists (k', b).
    + injection Hb as -> ->. destruct Hnotin.
      apply list_elem_of_fmap. by exists (k', a).
    + by apply IH.
Qed.

Lemma assoc_get_member {A : Type} (l : list (string * A)) k a :
  NoDup l.*1 -> (k, a) ∈ l -> assoc_get l k = Some a.
Proof.
  induction l as [|[k' c] l IH]; simpl; intros Hnd Ha.
  - by apply elem_of_nil in Ha.
  - apply NoDup_cons in Hnd as [Hnotin Hnd].
    apply elem_of_cons in Ha as [[= -> ->]|Ha].
    + by rewrite decide_True.
    + rewrite decide_False; [by apply IH|].
      intros ->. destruct Hnotin. apply list_elem_of_fmap. by exists (k, a).
Qed.

(** What [__init__] leaves under a name in [kwargs]: the supplied value,
    or else the default of the field of that name, unless it is [None]. *)
Lemma fill_defaults_fold
    (cls : ModelClass) (names : list string) (kwargs : Kwargs) (name : string) :
  fold_left
    (fun (kwargs : Kwargs) (field_name : string) =>
       match kwargs !! field_name with
       | Some _ => kwargs
       | None =>
           match model_fields_get cls field_name with
           | Some field_info =>
               if negb (is_None (FieldInfo.default field_info))
               then <[field_name := FieldInfo.default field_info]> kwargs
               else kwargs
           | None => kwargs
           end
       end)
    names kwargs !! name
  = match kwargs !! name with
    | Some value => Some value
    | None =>
        if decide (name ∈ names)
        then field_info ← model_fields_get cls name;
             if is_None (FieldInfo.default field_info)
             then None
             else Some (FieldInfo.default field_info)
        else None
    end.
Proof.
  revert kwargs. induction names as [|n names IH]; intros kwargs.
  - simpl. by destruct (kwargs !! name).
  - cbn [fold_left]. rewrite IH. clear IH.
    destruct (decide (name = n)) as [->|Hne].
    + destruct (kwargs !! n) as [value|] eqn:E; [by rewrite E|].
      rewrite (decide_True (P := n ∈ n :: names)) by apply list_elem_of_here.
      destruct (model_fields_get cls n) as [fi|]; simpl.
      * destruct (is_None (FieldInfo.default fi)) eqn:En; simpl.
        -- rewrite E. by destruct (decide (n ∈ names)).
        -- by rewrite lookup_insert_eq.
      * rewrite E. by destruct (decide (n ∈ names)).
    + assert (match kwargs !! n with
              | Some _ => kwargs
              | None =>
                  match model_fields_get cls n with
                  | Some field_info =>
                      if negb (is_None (FieldInfo.default field_info))
                      then <[n := FieldInfo.default field_info]> kwargs
                      else kwargs
                  | None => kwargs
                  end
              end !! name = kwargs !! name) as ->.
      { destruct (kwargs !! n); [done|].
        destruct (model_fields_get cls n) as [fi|]; [|done].
        destruct (negb (is_None (FieldInfo.default fi))); [|done].
        by rewrite lookup_insert_ne. }
      destruct (kwargs !! name); [done|].
      destruct (decide (name ∈ names)) as [Hin|Hnin].
      * by rewrite decide_True by by apply list_elem_of_further.
      * rewrite decide_False; [done|].
        intros [?|?]%elem_of_cons; done.
Qed.

Lemma fill_defaults_lookup (cls : ModelClass) (kwargs : Kwargs) (name : string) :
  ParseModel.fill_defaults cls kwargs !! name
  = match kwargs !! name with
    | Some value => Some value
    | None =>
        field_info ← model_fields_get cls name;
        if is_None (FieldInfo.default field_info)
        then None
        else Some (FieldInfo.default field_info)
    end.
Proof.
  unfold ParseModel.fill_defaults. rewrite fill_defaults_fold.
  destruct (kwargs !! name); [done|].
  destruct (decide (name ∈ (model_fields cls).*1)) as [Hin|Hnin]; [done|].
  apply assoc_get_None in Hnin. unfold model_fields_get. by rewrite Hnin.
Qed.

Lemma values_of_other cls kwargs w fields values name :
  name ∉ fields.*1 ->
  values_of cls kwargs w fields values !! name = values !! name.
Proof.
  revert values. induction fields as [|field fields IH]; intros values Hnin;
    [done|].
  rewrite values_of_cons. rewrite fmap_cons in Hnin.
  apply not_elem_of_cons in Hnin as [Hne Hnin]. rewrite (IH _ Hnin).
  destruct (field_outcome cls kwargs w field) as [|[|value]]; try done.
  by rewrite lookup_insert_ne.
Qed.

Lemma values_of_lookup cls kwargs w fields values name field_info :
  NoDup fields.*1 ->
  (name, field_info) ∈ fields ->
  values_of cls kwargs w fields values !! name
  = match field_outcome cls kwargs w (name, field_info) with
    | Return (inr value) => Some value
    | _ => values !! name
    end.
Proof.
  revert values. induction fields as [|field fields IH]; intros values Hnd Hin.
  - by apply elem_of_nil in Hin.
  - rewrite fmap_cons in Hnd. apply NoDup_cons in Hnd as [Hnotin Hnd].
    rewrite values_of_cons.
    apply elem_of_cons in Hin as [<-|Hin].
    + rewrite values_of_other by done. simpl.
      destruct (field_outcome cls kwargs w (name, field_info)) as [|[|value]];
        try done.
      by rewrite lookup_insert_eq.
    + rewrite (IH _ Hnd Hin).
      destruct (field_outcome cls kwargs w (name, field_info)) as [|[|value]];
        try done;
        (destruct (field_outcome cls kwargs w field) as [|[|value']]; try done;
         apply lookup_insert_ne; intros Heq; destruct Hnotin;
         apply list_elem_of_fmap; exists (name, field_info); by split).
Qed.

(** The batch has a record for a failing field, and a record of the batch
    with the path of a field means that this field failed. *)
Lemma batch_has_field cls kwargs w field :
  field ∈ model_fields cls ->
  offending cls kwargs w field = true ->
  ∃ error,
    error ∈ ParseModel.customize_errors cls
              (errors_of cls kwargs w (model_fields cls))
    ∧ ErrorDetails.loc error = [LocStr field.1].
Proof.
  intros Hin Hoff.
  assert ([LocStr field.1]
          ∈ ErrorDetails.loc
            <$> ParseModel.customize_errors cls
                  (errors_of cls kwargs w (model_fields cls))) as Hmem.
  { rewrite customize_errors_locs, errors_of_locs.
    apply list_elem_of_fmap. exists field. split; [done|].
    by apply list_elem_of_filter. }
  apply list_elem_of_fmap in Hmem as (e & He & Hine). eauto.
Qed.

Lemma batch_field_offending cls kwargs w name field_info error :
  NoDup (model_fields cls).*1 ->
  (name, field_info) ∈ model_fields cls ->
  error ∈ ParseModel.customize_errors cls
            (errors_of cls kwargs w (model_fields cls)) ->
  ErrorDetails.loc error = [LocStr name] ->
  offending cls kwargs w (name, field_info) = true.
Proof.
  intros Hnd Hin He Hloc.
  assert ([LocStr name]
          ∈ ErrorDetails.loc
            <$> ParseModel.customize_errors cls
                  (errors_of cls kwargs w (model_fields cls))) as Hmem.
  { apply list_elem_of_fmap. eauto. }
  rewrite customize_errors_locs, errors_of_locs in Hmem.
  apply list_elem_of_fmap in Hmem as ([name' fi'] & [= <-] & Hf).
  apply list_elem_of_filter in Hf as [Hoff Hin'].
  by rewrite (NoDup_fst_unique _ _ _ _ Hnd Hin Hin').
Qed.

(** The outcome of a field that the payload lacks and that has a default:
    the default as it is when it is [None], and otherwise what validating
    the default as a supplied value comes to. *)
Lemma defaulted_field_outcome cls payload w name field_info :
  NoDup (model_fields cls).*1 ->
  (name, field_info) ∈ model_fields cls ->
  FieldInfo.default field_info ≠ PydanticUndefined ->
  payload !! name = None ->
  field_outcome cls (ParseModel.fill_defaults cls payload) w (name, field_info)
  = if is_None (FieldInfo.default field_info)
    then Return (inr (FieldInfo.default field_info))
    else field_outcome cls {[ name := FieldInfo.default field_info ]} w
           (name, field_info).
Proof.
  intros Hnd Hin Hdef Hlack.
  pose proof (fill_defaults_lookup cls payload name) as Hk.
  rewrite Hlack in Hk. unfold model_fields_get in Hk.
  rewrite (assoc_get_member _ _ _ Hnd Hin) in Hk. simpl in Hk.
  unfold field_outcome. simpl.
  destruct (is_None (FieldInfo.default field_info)).
  - by rewrite validate_field_default.
  - f_equal. apply validate_field_supplied.
    + rewrite Hk. eauto.
    + by rewrite Hk, lookup_singleton_eq.
Qed.

(** C7 (amended): for a schema with a field [F] that has a default [D] and
    an input without [F]: when [D] is [None], [F] is filled with [None] and
    raises no error; otherwise [D] is put into the payload and validated
    like a supplied value (attached validator, then type check): the
    instance holds at [F] the value this validation returns for [D], which
    is [D] when validation leaves it unchanged, and construction reports an
    error for [F] when validation rejects [D]. *)
Theorem default_is_validated_like_a_supplied_value
    (cls : ModelClass) (data : option Kwargs) (w : World)
    (F : string) (field_info : FieldInfo.t) :
  NoDup (model_fields cls).*1 ->
  (F, field_info) ∈ model_fields cls ->
  FieldInfo.default field_info ≠ PydanticUndefined ->
  payload_of data !! F = None ->
  ∃ r w',
    ParseModel.from_data cls data w = (r, w')
    ∧ match
        (if is_None (FieldInfo.default field_info)
         then Return (inr (FieldInfo.default field_info))
         else field_outcome cls {[ F := FieldInfo.default field_info ]} w
                (F, field_info))
      with
      | Return (inr value) =>
          (∀ instance, r = Return instance -> __dict__ instance !! F = Some value)
          ∧ (∀ title errors error,
               r = Raise (ValidationError title errors) ->
               error ∈ errors ->
               ErrorDetails.loc error ≠ [LocStr F])
      | _ =>
          ∃ title errors error,
            r = Raise (ValidationError title errors)
            ∧ error ∈ errors
            ∧ ErrorDetails.loc error = [LocStr F]
      end.
Proof.
  intros Hnd Hin Hdef Hlack.
  rewrite <- (defaulted_field_outcome cls (payload_of data) w F field_info
                Hnd Hin Hdef Hlack).
  destruct (from_data_spec cls data w) as (w' & _ & Hrun).
  set (kwargs := ParseModel.fill_defaults cls (payload_of data)) in *.
  eexists _, w'. split; [exact Hrun|].
  destruct (validate_field_returns cls kwargs F field_info w
              (model_fields_member cls (F, field_info) Hin)) as [r Hr].
  assert (field_outcome cls kwargs w (F, field_info) = Return r) as Hout
    by exact Hr.
  rewrite Hout. destruct r as [error|value].
  - assert (offending cls kwargs w (F, field_info) = true) as Hoff.
    { unfold offending. by rewrite Hout. }
    destruct (batch_has_field cls kwargs w (F, field_info) Hin Hoff)
      as (e & He & Hloc).
    destruct (errors_of cls kwargs w (model_fields cls)) as [|e0 errors].
    + rewrite customize_errors_fmap in He. by apply elem_of_nil in He.
    + eauto 10.
  - split.
    + intros instance Hinst.
      destruct (errors_of cls kwargs w (model_fields cls)); [|done].
      injection Hinst as <-. simpl.
      by rewrite (values_of_lookup _ _ _ _ _ F field_info Hnd Hin), Hout.
    + intros title errors error Hraise He Hloc.
      destruct (errors_of cls kwargs w (model_fields cls)) as [|e0 errors0] eqn:E;
        [done|].
      injection Hraise as _ <-. rewrite <- E in He.
      pose proof (batch_field_offending cls kwargs w F field_info error
                    Hnd Hin He Hloc) as Hoff.
      unfold offending in Hoff. by rewrite Hout in Hoff.
Qed.

Lemma default_is_validated_like_a_supplied_value_witness :
  ∃ r w',
    ParseModel.from_data TagModel None demo_world = (r, w')
    ∧ match
        (if is_None (VStr "x")
         then Return (inr (VStr "x"))
         else field_outcome TagModel {[ "Tag" := VStr "x" ]} demo_world
                ("Tag",
                 validated_field (VStr "x") "add_prefix"
                   (Some {[ "prefix" := VStr "#" ]}) None))
      with
      | Return (inr value) =>
          (∀ instance, r = Return instance -> __dict__ instance !! "Tag" = Some value)
          ∧ (∀ title errors error,
               r = Raise (ValidationError title errors) ->
               error ∈ errors ->
               ErrorDetails.loc error ≠ [LocStr "Tag"])
      | _ =>
          ∃ title errors error,
            r = Raise (ValidationError title errors)
            ∧ error ∈ errors
            ∧ ErrorDetails.loc error = [LocStr "Tag"]
      end.
Proof.
  apply (default_is_validated_like_a_supplied_value
           TagModel None demo_world "Tag"
           (validated_field (VStr "x") "add_prefix"
              (Some {[ "prefix" := VStr "#" ]}) None)).
  - simpl. apply NoDup_singleton.
  - simpl. apply list_elem_of_here.
  - discriminate.
  - reflexivity.
Defined.

(** C7 as stated fails: [Tag] of [TagModel] has the default "x" and the
    input lacks [Tag], and the instance holds "#x", built by [from_data] or
    by the constructor: the default went through the attached validator,
    which put the prefix in front. *)
Lemma default_is_rewritten_by_validator :
  ∃ field_info instance w',
    model_fields_get TagModel "Tag" = Some field_info
    ∧ FieldInfo.default field_info = VStr "x"
    ∧ (∅ : Kwargs) !! "Tag" = None
    ∧ ParseModel.from_data TagModel (Some ∅) demo_world = (Return instance, w')
    ∧ ParseModel.__init__ TagModel ∅ demo_world = (Return instance, w')
    ∧ __dict__ instance !! "Tag" = Some (VStr "#x")
    ∧ __dict__ instance !! "Tag" ≠ Some (VStr "x").
Proof.
  eexists _, _, _.
  split; [reflexivity|]. split; [reflexivity|]. split; [reflexivity|].
  split; [vm_compute; reflexivity|].
  split; [vm_compute; reflexivity|].
  split; [reflexivity|]. simpl. discriminate.
Qed.

(** ** Round trip *)

Lemma fill_defaults_id (cls : ModelClass) (kwargs : Kwargs) :
  (∀ name, name ∈ (model_fields cls).*1 -> is_Some (kwargs !! name)) ->
  ParseModel.fill_defaults cls kwargs = kwargs.
Proof.
  intros Hall. apply map_eq. intros name. rewrite fill_defaults_lookup.
  destruct (kwargs !! name) as [value|] eqn:E; [done|].
  destruct (model_fields_get cls name) as [fi|] eqn:Eg; [|done].
  assert (name ∈ (model_fields cls).*1) as Hin.
  { destruct (decide (name ∈ (model_fields cls).*1)) as [|Hnin]; [done|].
    apply assoc_get_None in Hnin. unfold model_fields_get in Eg. congruence. }
  destruct (Hall name Hin) as [v Hv]. congruence.
Qed.

Lemma values_of_fixed cls kwargs w fields (values d : Kwargs) name :
  (∀ field, field ∈ fields ->
     ∃ value, d !! field.1 = Some value
              ∧ field_outcome cls kwargs w field = Return (inr value)) ->
  values_of cls kwargs w fields values !! name
  = if decide (name ∈ fields.*1) then d !! name else values !! name.
Proof.
  revert values. induction fields as [|field fields IH]; intros values Hfix.
  - reflexivity.
  - rewrite values_of_cons, IH.
    2:{ intros f Hf. apply Hfix. by apply list_elem_of_further. }
    destruct (Hfix field (list_elem_of_here _ _)) as (value & Hd & ->).
    rewrite fmap_cons.
    destruct (decide (name ∈ fields.*1)) as [Hin|Hnin].
    + by rewrite decide_True by by apply list_elem_of_further.
    + destruct (decide (name = field.1)) as [->|Hne].
      * rewrite decide_True by apply list_elem_of_here.
        by rewrite lookup_insert_eq.
      * rewrite decide_False.
        -- by rewrite lookup_insert_ne.
        -- intros [?|?]%elem_of_cons; done.
Qed.

Lemma errors_of_fixed cls kwargs w fields (d : Kwargs) :
  (∀ field, field ∈ fields ->
     ∃ value, d !! field.1 = Some value
              ∧ field_outcome cls kwargs w field = Return (inr value)) ->
  errors_of cls kwargs w fields = [].
Proof.
  induction fields as [|field fields IH]; intros Hfix; [done|].
  rewrite errors_of_cons.
  destruct (Hfix field (list_elem_of_here _ _)) as (value & Hd & ->).
  apply IH. intros f Hf. apply Hfix. by apply list_elem_of_further.
Qed.

(** An instance that construction returns is of the class, and has
    attributes for fields of the schema only. *)
Lemma from_data_returns cls data w instance w' :
  ParseModel.from_data cls data w = (Return instance, w') ->
  __class__ instance = cls
  ∧ ∀ name, name ∉ (model_fields cls).*1 -> __dict__ instance !! name = None.
Proof.
  intros Hrun. destruct (from_data_spec cls data w) as (w1 & _ & Hspec).
  rewrite Hspec in Hrun.
  destruct (errors_of _ _ _ _); [|done].
  injection Hrun as <- _. simpl. split; [done|].
  intros name Hnin. by rewrite values_of_other.
Qed.

(** C8 (amended): for every valid instance whose field values are each
    left unchanged by the validation of that field (attached validator,
    then type check), building from the dictionary of the instance returns
    the instance again, field by field. *)
Theorem round_trip_of_unchanged_values
    (cls : ModelClass) (instance : Instance)
    (data0 : option Kwargs) (w0 w0' w : World) :
  ParseModel.from_data cls data0 w0 = (Return instance, w0') ->
  (∀ field, field ∈ model_fields cls ->
     ∃ value,
       __dict__ instance !! field.1 = Some value
       ∧ field_outcome cls (BaseModelPydantic.to_dict instance) w field
         = Return (inr value)) ->
  ∃ w',
    ParseModel.from_data cls (Some (BaseModelPydantic.to_dict instance)) w
    = (Return instance, w').
Proof.
  intros Hbuilt Hfix.
  destruct (from_data_returns cls data0 w0 instance w0' Hbuilt) as [Hcls Hdom].
  destruct (from_data_spec cls (Some (BaseModelPydantic.to_dict instance)) w)
    as (w' & _ & Hrun).
  exists w'. rewrite Hrun. clear Hrun.
  unfold payload_of. simpl.
  rewrite fill_defaults_id.
  2:{ intros name Hin. apply list_elem_of_fmap in Hin as (field & -> & Hin).
      destruct (Hfix field Hin) as (value & Hv & _).
      unfold BaseModelPydantic.to_dict, BaseModel.model_dump. eauto. }
  rewrite (errors_of_fixed _ _ _ _ (__dict__ instance) Hfix).
  destruct instance as [c d]. simpl in *. subst c.
  assert (values_of cls d w (model_fields cls) ∅ = d) as ->; [|done].
  apply map_eq. intros name.
  rewrite (values_of_fixed _ _ _ _ _ d name Hfix).
  case_decide as Hin; [done|]. by rewrite lookup_empty, Hdom.
Qed.

Lemma round_trip_of_unchanged_values_witness :
  ∃ w',
    ParseModel.from_data PhoneModel (Some (BaseModelPydantic.to_dict ann)) demo_world
    = (Return ann, w').
Proof.
  apply (round_trip_of_unchanged_values
           PhoneModel ann (Some ann_payload) demo_world
           (ParseModel.from_data PhoneModel (Some ann_payload) demo_world).2
           demo_world).
  - vm_compute. reflexivity.
  - intros field Hin. simpl in Hin.
    apply elem_of_cons in Hin as [->|Hin];
      [|apply elem_of_cons in Hin as [->|Hin]; [|by apply elem_of_nil in Hin]];
      eexists; split; vm_compute; reflexivity.
Defined.

(** C8 as stated fails: the instance of [TagModel] built from the tag "a"
    holds "#a"; building again from its dictionary puts the prefix in
    front once more, and the two instances differ at [Tag]. *)
Lemma round_trip_changes_transformed_value :
  (∃ w', ParseModel.from_data TagModel (Some {[ "Tag" := VStr "a" ]}) demo_world
         = (Return tag_a, w'))
  ∧ (∃ w', ParseModel.from_data TagModel (Some (BaseModelPydantic.to_dict tag_a))
             demo_world
           = (Return tag_a_again, w'))
  ∧ __dict__ tag_a !! "Tag" = Some (VStr "#a")
  ∧ __dict__ tag_a_again !! "Tag" = Some (VStr "##a")
  ∧ tag_a_again ≠ tag_a.
Proof.
  split; [eexists; vm_compute; reflexivity|].
  split; [eexists; vm_compute; reflexivity|].
  split; [reflexivity|]. split; [reflexivity|].
  intros H. apply (f_equal (fun i => __dict__ i !! "Tag")) in H.
  vm_compute in H. discriminate.
Qed.

(** * Further properties *)

(** ** Instances and indexed access *)

Lemma values_of_mono cls kwargs w fields values name :
  is_Some (values !! name) ->
  is_Some (values_of cls kwargs w fields values !! name).
Proof.
  revert values. induction fields as [|field fields IH]; intros values Hsome;
    [done|].
  rewrite values_of_cons. apply IH.
  destruct (field_outcome cls kwargs w field) as [|[|value]]; try done.
  apply lookup_insert_is_Some. destruct (decide (field.1 = name)); auto.
Qed.

Lemma values_of_defined cls kwargs w fields values :
  (∀ field, field ∈ fields -> is_Some (model_fields_get cls field.1)) ->
  errors_of cls kwargs w fields = [] ->
  ∀ name, name ∈ fields.*1 ->
          is_Some (values_of cls kwargs w fields values !! name).
Proof.
  revert values. induction fields as [|[field_name field_info] fields IH];
    intros values Hsome Herr name Hin.
  - by apply elem_of_nil in Hin.
  - rewrite errors_of_cons in Herr. rewrite values_of_cons.
    destruct (validate_field_returns cls kwargs field_name field_info w)
      as [r Hr].
    { apply (Hsome (field_name, field_info)), list_elem_of_here. }
    assert (field_outcome cls kwargs w (field_name, field_info) = Return r)
      as Hout by exact Hr.
    rewrite Hout in *. destruct r as [error|value]; [done|].
    rewrite fmap_cons in Hin. apply elem_of_cons in Hin as [->|Hin].
    + apply values_of_mono. simpl. rewrite lookup_insert_eq. eauto.
    + apply IH; [|done|done].
      intros field Hf. apply Hsome. by apply list_elem_of_further.
Qed.

(** An instance that construction returns has an attribute for every field
    of the schema. *)
Lemma from_data_has_fields cls data w instance w' :
  ParseModel.from_data cls data w = (Return instance, w') ->
  ∀ name, name ∈ (model_fields cls).*1 -> is_Some (__dict__ instance !! name).
Proof.
  intros Hrun. destruct (from_data_spec cls data w) as (w1 & _ & Hspec).
  rewrite Hspec in Hrun.
  destruct (errors_of _ _ _ _) eqn:E; [|done].
  injection Hrun as <- _. simpl. intros name Hin.
  apply values_of_defined; [|done|done].
  intros field. apply model_fields_member.
Qed.

(** X1: on an instance that construction returned, [self[name]] returns the
    stored value of every field of the schema and never fails with a
    missing attribute; for any other name it raises [KeyError] with the
    message "Field '<name>' not found in <class name>".  The world is left
    as it is. *)
Theorem getitem_of_constructed_instance
    (cls : ModelClass) (data : option Kwargs) (w0 w0' w : World)
    (instance : Instance) (name : string) :
  ParseModel.from_data cls data w0 = (Return instance, w0') ->
  (name ∈ (model_fields cls).*1 ->
   ∃ value,
     __dict__ instance !! name = Some value
     ∧ BaseModelPydantic.__getitem__ instance name w = (Return value, w))
  ∧ (name ∉ (model_fields cls).*1 ->
     BaseModelPydantic.__getitem__ instance name w
     = (Raise (KeyError ("Field '" +:+ name +:+ "' not found in "
                         +:+ __name__ cls)), w)).
Proof.
  intros Hbuilt.
  destruct (from_data_returns cls data w0 instance w0' Hbuilt) as [Hcls _].
  pose proof (from_data_has_fields cls data w0 instance w0' Hbuilt name) as Hhas.
  unfold BaseModelPydantic.__getitem__, BaseModelPydantic.not_found.
  rewrite Hcls. split.
  - intros Hin. destruct (Hhas Hin) as [value Hv]. exists value.
    split; [done|].
    assert (in_model_fields cls name = true) as ->
      by by apply in_model_fields_true.
    simpl. unfold BaseModel.getattr. by rewrite Hv.
  - intros Hnin.
    assert (in_model_fields cls name = false) as ->
      by by apply in_model_fields_false.
    reflexivity.
Qed.

Lemma getitem_of_constructed_instance_witness :
  ("Phone" ∈ (model_fields PhoneModel).*1 ->
   ∃ value,
     __dict__ ann !! "Phone" = Some value
     ∧ BaseModelPydantic.__getitem__ ann "Phone" demo_world
       = (Return value, demo_world))
  ∧ ("Phone" ∉ (model_fields PhoneModel).*1 ->
     BaseModelPydantic.__getitem__ ann "Phone" demo_world
     = (Raise (KeyError ("Field '" +:+ "Phone" +:+ "' not found in "
                         +:+ __name__ PhoneModel)), demo_world)).
Proof.
  apply (getitem_of_constructed_instance
           PhoneModel (Some ann_payload) demo_world
           (ParseModel.from_data PhoneModel (Some ann_payload) demo_world).2
           demo_world ann "Phone").
  vm_compute. reflexivity.
Defined.

(** X2: [name in self] is false exactly when [self[name]] raises
    [KeyError], and exactly when [self[name] = value] raises [KeyError];
    it is true exactly for the names that [keys] lists. *)
Theorem contains_agrees_with_indexed_access
    (self : Instance) (name : string) (value : Value) (w : World) :
  (BaseModelPydantic.__contains__ self name = false
   <-> ∃ message,
         BaseModelPydantic.__getitem__ self name w = (Raise (KeyError message), w))
  ∧ (BaseModelPydantic.__contains__ self name = false
     <-> ∃ message,
           BaseModelPydantic.__setitem__ self name value w
           = (Raise (KeyError message), w))
  ∧ (BaseModelPydantic.__contains__ self name = true
     <-> name ∈ BaseModelPydantic.keys self).
Proof.
  unfold BaseModelPydantic.__contains__, BaseModelPydantic.__getitem__,
    BaseModelPydantic.__setitem__, BaseModelPydantic.keys.
  split; [|split; [|apply in_model_fields_true]].
  - destruct (in_model_fields (__class__ self) name); simpl.
    + split; [done|]. intros [message H]. unfold BaseModel.getattr in H.
      destruct (__dict__ self !! name); discriminate.
    + split; [eauto|done].
  - destruct (in_model_fields (__class__ self) name); simpl.
    + split; [done|]. intros [message H]. discriminate.
    + split; [eauto|done].
Qed.

(** ** Bulk update *)

(** X3: [update] does what assigning the items one after the other with
    [self[key] = value] does, when the assignments that raise [KeyError]
    are skipped; it raises nothing and leaves the world as it is. *)
Theorem update_is_repeated_setitem
    (self : Instance) (data : list (string * Value)) (w : World) :
  BaseModelPydantic.update self data w
  = (Return (fold_left (setitem_or_skip w) data self), w).
Proof.
  unfold BaseModelPydantic.update, ret. do 2 f_equal.
  revert self. induction data as [|[key value] data IH]; intros self; [done|].
  simpl. rewrite IH. f_equal.
  unfold setitem_or_skip, BaseModelPydantic.__setitem__. simpl.
  by destruct (in_model_fields (__class__ self) key).
Qed.

Lemma update_fold_lookup (data : list (string * Value)) (self : Instance) key :
  __dict__
    (fold_left
       (fun self '(key, value) =>
          if in_model_fields (__class__ self) key
          then BaseModel.setattr self key value
          else self)
       data self) !! key
  = if in_model_fields (__class__ self) key
    then match last_value data key with
         | Some value => Some value
         | None => __dict__ self !! key
         end
    else __dict__ self !! key.
Proof.
  revert self. induction data as [|[k v] data IH]; intros self.
  - simpl. by destruct (in_model_fields (__class__ self) key).
  - cbn [fold_left last_value]. rewrite IH. clear IH.
    assert (__class__ (if in_model_fields (__class__ self) k
                       then BaseModel.setattr self k v else self)
            = __class__ self) as ->
      by by destruct (in_model_fields (__class__ self) k).
    destruct (in_model_fields (__class__ self) key) eqn:Ekey.
    + destruct (last_value data key) as [v'|]; [done|].
      destruct (decide (k = key)) as [->|Hne].
      * rewrite Ekey. simpl. by rewrite lookup_insert_eq.
      * destruct (in_model_fields (__class__ self) k); [|done].
        simpl. by rewrite lookup_insert_ne.
    + destruct (in_model_fields (__class__ self) k) eqn:Ek; [|done].
      simpl. rewrite lookup_insert_ne; [done|]. intros ->. congruence.
Qed.

Lemma last_value_unique (data : list (string * Value)) key value :
  NoDup data.*1 -> (key, value) ∈ data -> last_value data key = Some value.
Proof.
  induction data as [|[k v] data IH]; intros Hnd Hin.
  - by apply elem_of_nil in Hin.
  - rewrite fmap_cons in Hnd. apply NoDup_cons in Hnd as [Hnotin Hnd].
    simpl. apply elem_of_cons in Hin as [Heq|Hin].
    + injection Heq as <- <-. rewrite decide_True by done.
      destruct (last_value data key) as [v'|] eqn:E; [|done].
      destruct Hnotin. clear -E.
      induction data as [|[k' v''] data IH]; [done|]. simpl in *.
      destruct (last_value data key).
      * apply list_elem_of_further. by apply IH.
      * destruct (decide (k' = key)) as [->|]; [|done]. apply list_elem_of_here.
    + by rewrite (IH Hnd Hin).
Qed.

(** X4: after [update], a field of the schema holds the value of the last
    item given for it, not validated, or its old value when the mapping has
    no item for it; for a mapping with distinct keys this is the value the
    mapping has under the field's name. *)
Theorem update_stores_the_last_value_given
    (self : Instance) (data : list (string * Value)) (w : World) (key : string) :
  key ∈ BaseModelPydantic.keys self ->
  ∃ self',
    BaseModelPydantic.update self data w = (Return self', w)
    ∧ __dict__ self' !! key
      = match last_value data key with
        | Some value => Some value
        | None => __dict__ self !! key
        end
    ∧ (NoDup data.*1 ->
       ∀ value, (key, value) ∈ data -> __dict__ self' !! key = Some value).
Proof.
  intros Hin. eexists. split; [reflexivity|].
  rewrite update_fold_lookup.
  assert (in_model_fields (__class__ self) key = true) as ->
    by by apply in_model_fields_true.
  split; [done|]. intros Hnd value Hv.
  by rewrite (last_value_unique data key value Hnd Hv).
Qed.

Lemma update_stores_the_last_value_given_witness :
  ∃ self',
    BaseModelPydantic.update ann [("Name", VStr "Bob"); ("Age", VInt 3)] demo_world
    = (Return self', demo_world)
    ∧ __dict__ self' !! "Name"
      = match last_value [("Name", VStr "Bob"); ("Age", VInt 3)] "Name" with
        | Some value => Some value
        | None => __dict__ ann !! "Name"
        end
    ∧ (NoDup [("Name", VStr "Bob"); ("Age", VInt 3)].*1 ->
       ∀ value,
         ("Name", value) ∈ [("Name", VStr "Bob"); ("Age", VInt 3)] ->
         __dict__ self' !! "Name" = Some value).
Proof.
  apply (update_stores_the_last_value_given
           ann [("Name", VStr "Bob"); ("Age", VInt 3)] demo_world "Name").
  simpl. apply list_elem_of_further, list_elem_of_here.
Defined.

(** X5: [update] is idempotent: updating a second time with the same
    mapping changes nothing. *)
Theorem update_twice_is_update_once
    (self : Instance) (data : list (string * Value)) (w : World) :
  ∃ self',
    BaseModelPydantic.update self data w = (Return self', w)
    ∧ BaseModelPydantic.update self' data w = (Return self', w).
Proof.
  eexists. split; [reflexivity|].
  unfold BaseModelPydantic.update, ret. do 2 f_equal.
  set (step := fun (self : Instance) '(key, value) =>
                 if in_model_fields (__class__ self) key
                 then BaseModel.setattr self key value
                 else self).
  pose proof (update_fold_class data self) as Hc1. fold step in Hc1.
  pose proof (update_fold_class data (fold_left step data self)) as Hc2.
  fold step in Hc2.
  assert (__dict__ (fold_left step data (fold_left step data self))
          = __dict__ (fold_left step data self)) as Hd.
  { apply map_eq. intros key.
    pose proof (update_fold_lookup data (fold_left step data self) key) as H2.
    pose proof (update_fold_lookup data self key) as H1.
    fold step in H1, H2. rewrite H2, Hc1, H1.
    destruct (in_model_fields (__class__ self) key); [|done].
    by destruct (last_value data key). }
  destruct (fold_left step data (fold_left step data self)) as [c2 d2].
  destruct (fold_left step data self) as [c1 d1]. simpl in *. congruence.
Qed.

(** ** Listing the fields *)

Lemma getattr_present (self : Instance) (name : string) (value : Value) (w : World) :
  __dict__ self !! name = Some value ->
  BaseModel.getattr self name w = (Return value, w).
Proof. intros H. unfold BaseModel.getattr. by rewrite H. Qed.

Lemma for_each_getattr (self : Instance) (names : list string) (w : World) :
  (∀ name, name ∈ names -> is_Some (__dict__ self !! name)) ->
  ∃ values,
    for_each (BaseModel.getattr self) names w = (Return values, w)
    ∧ for_each
        (fun name => value <~ BaseModel.getattr self name ;; ret (name, value))
        names w
      = (Return (zip names values), w)
    ∧ Forall2 (fun name value => __dict__ self !! name = Some value) names values.
Proof.
  induction names as [|name names IH]; intros Hall.
  - exists []. by repeat split.
  - destruct IH as (values & Hv & Hi & Hf).
    { intros n Hn. apply Hall. by apply list_elem_of_further. }
    destruct (Hall name (list_elem_of_here _ _)) as [value Hvalue].
    exists (value :: values). cbn [for_each]. unfold bind in *.
    rewrite (getattr_present self name value w Hvalue).
    cbv beta iota. unfold ret at 2. cbv beta iota. rewrite Hv, Hi.
    split; [done|]. split; [done|]. by constructor.
Qed.

Lemma list_to_map_zip (d : Kwargs) (names : list string) (values : list Value) key :
  Forall2 (fun name value => d !! name = Some value) names values ->
  (list_to_map (zip names values) : Kwargs) !! key
  = if decide (key ∈ names) then d !! key else None.
Proof.
  induction 1 as [|name value names values Hd Hf IH]; [done|].
  simpl. destruct (decide (name = key)) as [->|Hne].
  - rewrite lookup_insert_eq.
    by rewrite decide_True by apply list_elem_of_here.
  - rewrite lookup_insert_ne by done. rewrite IH.
    destruct (decide (key ∈ names)) as [Hin|Hnin].
    + by rewrite decide_True by by apply list_elem_of_further.
    + rewrite decide_False; [done|]. intros [?|?]%elem_of_cons; done.
Qed.

(** X6: on an instance that construction returned, [values] and [items]
    raise nothing; [values] lists the stored value of every name of [keys]
    in the order of [keys], [items] pairs the names of [keys] with these
    values, and the items make up the dictionary that [to_dict] returns. *)
Theorem keys_values_items_agree
    (cls : ModelClass) (data : option Kwargs) (w0 w0' w : World)
    (instance : Instance) :
  ParseModel.from_data cls data w0 = (Return instance, w0') ->
  ∃ values,
    BaseModelPydantic.values instance w = (Return values, w)
    ∧ BaseModelPydantic.items instance w
      = (Return (zip (BaseModelPydantic.keys instance) values), w)
    ∧ length values = length (BaseModelPydantic.keys instance)
    ∧ (∀ i name,
         BaseModelPydantic.keys instance !! i = Some name ->
         values !! i = __dict__ instance !! name)
    ∧ list_to_map (zip (BaseModelPydantic.keys instance) values)
      = BaseModelPydantic.to_dict instance.
Proof.
  intros Hbuilt.
  destruct (from_data_returns cls data w0 instance w0' Hbuilt) as [Hcls Hdom].
  pose proof (from_data_has_fields cls data w0 instance w0' Hbuilt) as Hhas.
  unfold BaseModelPydantic.values, BaseModelPydantic.items,
    BaseModelPydantic.keys, BaseModelPydantic.to_dict, BaseModel.model_dump.
  rewrite Hcls.
  destruct (for_each_getattr instance (model_fields cls).*1 w Hhas)
    as (values & Hv & Hi & Hf).
  exists values. split; [done|]. split; [done|].
  split; [symmetry; by eapply Forall2_length|]. split.
  - intros i name Hi'.
    destruct (Forall2_lookup_l _ _ _ _ _ Hf Hi') as (value & -> & Hd).
    by rewrite Hd.
  - apply map_eq. intros key.
    rewrite (list_to_map_zip (__dict__ instance) _ _ key Hf).
    case_decide as Hin; [done|]. by rewrite Hdom.
Qed.

Lemma keys_values_items_agree_witness :
  ∃ values,
    BaseModelPydantic.values ann demo_world = (Return values, demo_world)
    ∧ BaseModelPydantic.items ann demo_world
      = (Return (zip (BaseModelPydantic.keys ann) values), demo_world)
    ∧ length values = length (BaseModelPydantic.keys ann)
    ∧ (∀ i name,
         BaseModelPydantic.keys ann !! i = Some name ->
         values !! i = __dict__ ann !! name)
    ∧ list_to_map (zip (BaseModelPydantic.keys ann) values)
      = BaseModelPydantic.to_dict ann.
Proof.
  apply (keys_values_items_agree
           PhoneModel (Some ann_payload) demo_world
           (ParseModel.from_data PhoneModel (Some ann_payload) demo_world).2
           demo_world ann).
  vm_compute. reflexivity.
Defined.

(** ** The constructor's payload *)

(** X7: what [__init__] hands on under a name: a supplied value is never
    replaced; a field the input lacks gets its default when the default is
    not [None], and that includes the undefined sentinel of a required
    field; a field whose default is [None] and a name outside the schema
    stay as they are. *)
Theorem init_fills_absent_fields_only
    (cls : ModelClass) (kwargs : Kwargs) (name : string) :
  (∀ value, kwargs !! name = Some value ->
            ParseModel.fill_defaults cls kwargs !! name = Some value)
  ∧ (∀ field_info,
       kwargs !! name = None ->
       model_fields_get cls name = Some field_info ->
       ParseModel.fill_defaults cls kwargs !! name
       = if is_None (FieldInfo.default field_info)
         then None
         else Some (FieldInfo.default field_info))
  ∧ (∀ field_info,
       kwargs !! name = None ->
       model_fields_get cls name = Some field_info ->
       FieldInfo.is_required field_info = true ->
       ParseModel.fill_defaults cls kwargs !! name = Some PydanticUndefined)
  ∧ (kwargs !! name = None ->
     model_fields_get cls name = None ->
     ParseModel.fill_defaults cls kwargs !! name = None).
Proof.
  rewrite fill_defaults_lookup. repeat split.
  - by intros value ->.
  - by intros field_info -> ->.
  - intros field_info -> -> Hreq. simpl.
    unfold FieldInfo.is_required in Hreq.
    by destruct (FieldInfo.default field_info).
  - by intros -> ->.
Qed.

(** X8: [__init__] only adds to its keyword arguments, and filling a second
    time adds nothing more. *)
Theorem fill_defaults_extends_and_is_idempotent
    (cls : ModelClass) (kwargs : Kwargs) :
  kwargs ⊆ ParseModel.fill_defaults cls kwargs
  ∧ ParseModel.fill_defaults cls (ParseModel.fill_defaults cls kwargs)
    = ParseModel.fill_defaults cls kwargs.
Proof.
  split.
  - apply map_subseteq_spec. intros name value H.
    by rewrite fill_defaults_lookup, H.
  - apply map_eq. intros name.
    rewrite (fill_defaults_lookup cls (ParseModel.fill_defaults cls kwargs)).
    destruct (ParseModel.fill_defaults cls kwargs !! name) as [value|] eqn:E;
      [done|].
    rewrite fill_defaults_lookup in E.
    destruct (kwargs !! name); [done|].
    destruct (model_fields_get cls name) as [fi|]; [|done]. simpl in *.
    by destruct (is_None (FieldInfo.default fi)).
Qed.

Lemma apply_custom_validators_skips cls value field_name w :
  is_Some (model_fields_get cls field_name) ->
  value = PydanticUndefined ∨ value = VNone ->
  ParseModel.apply_custom_validators cls value field_name w = (Return value, w).
Proof.
  intros [fi Hfi] Hv. unfold ParseModel.apply_custom_validators. rewrite Hfi.
  destruct (FieldInfo.json_schema_extra fi) as [extra|]; [|done].
  destruct (extra_validator extra) as [vn|]; [|done].
  unfold bind, get_registry.
  destruct (_validators_registry w !! vn) as [[f d|f]|]; [| |done];
    by destruct Hv as [-> | ->].
Qed.

(** X9: a required field that the input lacks is not reported as missing:
    the constructor supplies the undefined sentinel for it, the dispatcher
    passes the sentinel on without calling any validator, and the field
    comes to what the type check of its declared type makes of the
    sentinel. *)
Theorem missing_required_field_is_validated_as_undefined
    (cls : ModelClass) (payload : Kwargs) (w : World)
    (F : string) (field_info : FieldInfo.t) :
  NoDup (model_fields cls).*1 ->
  (F, field_info) ∈ model_fields cls ->
  FieldInfo.is_required field_info = true ->
  payload !! F = None ->
  BaseModel.validate_field ParseModel.apply_custom_validators cls
    (ParseModel.fill_defaults cls payload) F field_info w
  = (Return
       match FieldInfo.annotation field_info PydanticUndefined with
       | inr value => inr value
       | inl failure =>
           inl {| ErrorDetails.type := failure_type failure;
                  ErrorDetails.loc := [LocStr F];
                  ErrorDetails.msg := failure_msg failure;
                  ErrorDetails.input := Some PydanticUndefined;
                  ErrorDetails.ctx := failure_ctx failure;
                  ErrorDetails.url := None |}
       end, w).
Proof.
  intros Hnd Hin Hreq Hlack.
  assert (model_fields_get cls F = Some field_info) as Hget
    by by apply assoc_get_member.
  assert (ParseModel.fill_defaults cls payload !! F = Some PydanticUndefined)
    as Hk.
  { rewrite fill_defaults_lookup, Hlack, Hget. simpl.
    unfold FieldInfo.is_required in Hreq.
    by destruct (FieldInfo.default field_info). }
  unfold BaseModel.validate_field. rewrite Hk. unfold bind, attempt.
  rewrite apply_custom_validators_skips; [|by rewrite Hget|by left].
  by destruct (FieldInfo.annotation field_info PydanticUndefined).
Qed.

Lemma missing_required_field_is_validated_as_undefined_witness :
  BaseModel.validate_field ParseModel.apply_custom_validators PhoneModel
    (ParseModel.fill_defaults PhoneModel {[ "Phone" := VStr "138" ]})
    "Name" (plain_field PydanticUndefined) demo_world
  = (Return
       match FieldInfo.annotation (plain_field PydanticUndefined) PydanticUndefined with
       | inr value => inr value
       | inl failure =>
           inl {| ErrorDetails.type := failure_type failure;
                  ErrorDetails.loc := [LocStr "Name"];
                  ErrorDetails.msg := failure_msg failure;
                  ErrorDetails.input := Some PydanticUndefined;
                  ErrorDetails.ctx := failure_ctx failure;
                  ErrorDetails.url := None |}
       end, demo_world).
Proof.
  apply (missing_required_field_is_validated_as_undefined
           PhoneModel {[ "Phone" := VStr "138" ]} demo_world
           "Name" (plain_field PydanticUndefined)).
  - simpl. apply NoDup_cons. split; [|apply NoDup_singleton].
    intros [=]%list_elem_of_singleton.
  - simpl. apply list_elem_of_further, list_elem_of_here.
  - reflexivity.
  - reflexivity.
Defined.

(** ** More on the error translator *)

Lemma customize_error_custom_message cls error :
  ParseModel.customize_error cls error
  = match custom_message_of cls (ErrorDetails.loc error) (ErrorDetails.type error) with
    | Some message =>
        if str_truthy message
        then {| ErrorDetails.loc := ErrorDetails.loc error;
                ErrorDetails.msg := message;
                ErrorDetails.type := ErrorDetails.type error;
                ErrorDetails.ctx := Some (ctx_mapping error);
                ErrorDetails.input := None;
                ErrorDetails.url := None |}
        else error
    | None => error
    end.
Proof.
  unfold ParseModel.customize_error, custom_message_of, ctx_mapping.
  destruct (ErrorDetails.loc error) as [|[name|i] rest]; simpl;
    rewrite ?guarded_get; reflexivity.
Qed.

(** X10: translating an already translated batch changes nothing. *)
Theorem customize_errors_is_idempotent
    (cls : ModelClass) (errors : list ErrorDetails.t) :
  ParseModel.customize_errors cls (ParseModel.customize_errors cls errors)
  = ParseModel.customize_errors cls errors.
Proof.
  rewrite !customize_errors_fmap, <- list_fmap_compose.
  apply list_fmap_ext. intros i error _. simpl.
  rewrite (customize_error_custom_message cls (ParseModel.customize_error cls error)).
  rewrite customize_error_loc, customize_error_type.
  rewrite (customize_error_custom_message cls error).
  destruct (custom_message_of cls (ErrorDetails.loc error) (ErrorDetails.type error))
    as [message|]; [|done].
  destruct (str_truthy message); [|done]. reflexivity.
Qed.

Lemma assoc_get_Some_member {A : Type} (l : list (string * A)) name a :
  assoc_get l name = Some a -> (name, a) ∈ l.
Proof.
  induction l as [|[k b] l IH]; simpl; [done|].
  destruct (decide (k = name)) as [->|Hne].
  - intros [= ->]. apply list_elem_of_here.
  - intros H. apply list_elem_of_further. by apply IH.
Qed.

(** X11: for a schema none of whose fields has a custom-message table, the
    translator returns every batch as it is. *)
Theorem customize_errors_without_tables
    (cls : ModelClass) (errors : list ErrorDetails.t) :
  no_message_tables cls ->
  ParseModel.customize_errors cls errors = errors.
Proof.
  intros Hnone. rewrite customize_errors_fmap.
  rewrite <- (list_fmap_id errors) at 2.
  apply list_fmap_ext. intros i error _. simpl.
  rewrite customize_error_custom_message.
  assert (∀ name kind field_info,
            model_fields_get cls name = Some field_info ->
            match FieldInfo.json_schema_extra field_info with
            | Some extra => default ∅ (extra_error_messages extra) !! kind
            | None => None
            end = (None : option string)) as Hno.
  { intros name kind fi Hget.
    apply assoc_get_Some_member in Hget.
    destruct (FieldInfo.json_schema_extra fi) as [extra|] eqn:E; [|done].
    by rewrite (Hnone (name, fi) Hget extra E). }
  unfold custom_message_of.
  destruct (ErrorDetails.loc error) as [|[name|i'] rest]; try done.
  - destruct (model_fields_get cls "unknown") as [fi|] eqn:E; [|done].
    by rewrite (Hno "unknown" _ fi E).
  - destruct (model_fields_get cls name) as [fi|] eqn:E; [|done].
    by rewrite (Hno name _ fi E).
Qed.

Lemma customize_errors_without_tables_witness :
  ParseModel.customize_errors DanglingModel [phone_type_mismatch; phone_missing]
  = [phone_type_mismatch; phone_missing].
Proof.
  apply (customize_errors_without_tables
           DanglingModel [phone_type_mismatch; phone_missing]).
  intros field Hin extra Hextra. simpl in Hin.
  apply list_elem_of_singleton in Hin as ->. simpl in Hextra.
  by injection Hextra as <-.
Defined.

(** ** More on the dispatcher and the registry *)

Lemma attachment_cases cls field_name w :
  model_fields_get cls field_name = None
  ∨ (is_Some (model_fields_get cls field_name)
     ∧ attachment cls field_name = None)
  ∨ (∃ validator_name override,
       attachment cls field_name = Some (validator_name, override)
       ∧ _validators_registry w !! validator_name = None)
  ∨ (∃ validator_name override validator default_args,
       attachment cls field_name = Some (validator_name, override)
       ∧ resolve w validator_name = Some (validator, default_args)).
Proof.
  unfold attachment, resolve.
  destruct (model_fields_get cls field_name) as [fi|]; [right|by left].
  simpl. destruct (FieldInfo.json_schema_extra fi) as [extra|]; simpl;
    [|left; eauto].
  destruct (extra_validator extra) as [vn|]; simpl; [right|left; eauto].
  destruct (_validators_registry w !! vn) as [[f d|f]|] eqn:E.
  - right. exists vn, (default ∅ (extra_validator_args extra)), f, d.
    by rewrite E.
  - right. exists vn, (default ∅ (extra_validator_args extra)), f, ∅.
    by rewrite E.
  - left. eauto.
Qed.


(** X13: registering a validator under a name changes nothing for a field
    that is not attached to that name: the dispatcher returns or raises the
    same and makes the same calls. *)
Theorem registration_leaves_other_fields_alone
    (w : World) (name : string) (validator : Validator) (kwargs : Kwargs)
    (cls : ModelClass) (value : Value) (field_name : string) :
  (∀ override, attachment cls field_name ≠ Some (name, override)) ->
  (ParseModel.apply_custom_validators cls value field_name
     (ParseModel.register_validator name validator kwargs w).2).1
  = (ParseModel.apply_custom_validators cls value field_name w).1
  ∧ calls (ParseModel.apply_custom_validators cls value field_name
             (ParseModel.register_validator name validator kwargs w).2).2
    = calls (ParseModel.apply_custom_validators cls value field_name w).2.
Proof.
  intros Hother.
  set (w1 := (ParseModel.register_validator name validator kwargs w).2).
  destruct (attachment_cases cls field_name w)
    as [Hnone|[[[fi Hfi] Hatt]|[(vn & ov & Hatt & Hreg)|(vn & ov & f & d & Hatt & Hres)]]].
  - unfold ParseModel.apply_custom_validators. by rewrite Hnone.
  - by rewrite !(apply_custom_validators_unattached cls _ field_name fi value Hfi Hatt).
  - assert (vn ≠ name) as Hne by (intros ->; by apply (Hother ov)).
    rewrite (apply_custom_validators_dangling cls w field_name vn ov value Hatt Hreg).
    rewrite (apply_custom_validators_dangling cls w1 field_name vn ov value Hatt).
    + done.
    + subst w1. simpl. by rewrite lookup_insert_ne.
  - assert (vn ≠ name) as Hne by (intros ->; by apply (Hother ov)).
    assert (resolve w1 vn = Some (f, d)) as Hres1.
    { subst w1. by rewrite resolve_register_ne. }
    rewrite (apply_custom_validators_registered cls w field_name vn ov f d value
               Hatt Hres).
    rewrite (apply_custom_validators_registered cls w1 field_name vn ov f d value
               Hatt Hres1).
    by destruct (is_undefined value || is_None value).
Qed.

Lemma registration_leaves_other_fields_alone_witness :
  (ParseModel.apply_custom_validators PhoneModel (VStr "12a") "Phone"
     (ParseModel.register_validator "add_prefix" accept_any ∅ demo_world).2).1
  = (ParseModel.apply_custom_validators PhoneModel (VStr "12a") "Phone" demo_world).1
  ∧ calls (ParseModel.apply_custom_validators PhoneModel (VStr "12a") "Phone"
             (ParseModel.register_validator "add_prefix" accept_any ∅ demo_world).2).2
    = calls (ParseModel.apply_custom_validators PhoneModel (VStr "12a") "Phone"
               demo_world).2.
Proof.
  apply (registration_leaves_other_fields_alone
           demo_world "add_prefix" accept_any ∅ PhoneModel (VStr "12a") "Phone").
  intros override H. vm_compute in H. discriminate.
Defined.

(** X14: registrations under two different names can be made in either
    order: the resulting world is the same. *)
Theorem registrations_under_different_names_commute
    (w : World) (name1 name2 : string) (f1 f2 : Validator) (a1 a2 : Kwargs) :
  name1 ≠ name2 ->
  (_ <~ ParseModel.register_validator name1 f1 a1 ;;
   ParseModel.register_validator name2 f2 a2) w
  = (_ <~ ParseModel.register_validator name2 f2 a2 ;;
     ParseModel.register_validator name1 f1 a1) w.
Proof.
  intros Hne. unfold bind, ParseModel.register_validator. simpl.
  do 2 f_equal. by apply insert_insert_ne.
Qed.

Lemma registrations_under_different_names_commute_witness :
  (_ <~ ParseModel.register_validator "digits_only" digits_only ∅ ;;
   ParseModel.register_validator "accept_any" accept_any ∅) empty_world
  = (_ <~ ParseModel.register_validator "accept_any" accept_any ∅ ;;
     ParseModel.register_validator "digits_only" digits_only ∅) empty_world.
Proof.
  apply (registrations_under_different_names_commute
           empty_world "digits_only" "accept_any" digits_only accept_any ∅ ∅).
  discriminate.
Defined.

(** ** The phone validator of the demonstration *)

Lemma prefix_all_isdigit (p v : string) :
  String.prefix p v = true -> all_isdigit v = true -> all_isdigit p = true.
Proof.
  revert v. induction p as [|a p IH]; intros v; [done|].
  destruct v as [|b v]; simpl; [done|].
  destruct (Ascii.ascii_dec a b) as [->|]; [|done].
  intros Hp [Hb Hv]%andb_prop. by rewrite Hb, (IH v Hp Hv).
Qed.

Lemma prefix_length (p v : string) :
  String.prefix p v = true -> (String.length p <= String.length v)%nat.
Proof.
  revert v. induction p as [|a p IH]; intros v; simpl; [lia|].
  destruct v as [|b v]; simpl; [done|].
  destruct (Ascii.ascii_dec a b); [|done].
  intros Hp. specialize (IH v Hp). lia.
Qed.

Lemma validate_phone_accepts (value : string) (min_length : Z) (prefix r : string) :
  validate_phone value min_length prefix = inr r ->
  r = value
  ∧ (value ≠ "" ->
     startswith value prefix = true
     ∧ Z.of_nat (String.length value) = min_length
     ∧ isdigit value = true).
Proof.
  unfold validate_phone.
  destruct (str_truthy value) eqn:Et; simpl.
  - destruct (startswith value prefix) eqn:Es; simpl; [|done].
    destruct (Z.of_nat (String.length value) =? min_length)%Z eqn:El;
      simpl; [|done].
    destruct (isdigit value) eqn:Ed; simpl; [|done].
    intros [= <-]. split; [done|]. intros _.
    apply Z.eqb_eq in El. done.
  - intros [= <-]. split; [done|]. by destruct value.
Qed.

(** X15: [validate_phone] checks and never changes: whatever it returns is
    the value it was given.  The empty string is accepted whatever the
    arguments are; a non-empty value is accepted only when it starts with
    the prefix, has exactly [min_length] characters and consists of
    digits. *)
Theorem validate_phone_returns_its_value
    (value : string) (min_length : Z) (prefix : string) :
  validate_phone "" min_length prefix = inr ""
  ∧ (∀ r, validate_phone value min_length prefix = inr r -> r = value)
  ∧ (∀ r, validate_phone value min_length prefix = inr r ->
          value ≠ "" ->
          startswith value prefix = true
          ∧ Z.of_nat (String.length value) = min_length
          ∧ isdigit value = true)
  ∧ (startswith value prefix = true ->
     Z.of_nat (String.length value) = min_length ->
     isdigit value = true ->
     validate_phone value min_length prefix = inr value).
Proof.
  split; [done|]. split; [|split].
  - intros r H. by apply validate_phone_accepts in H as [? _].
  - intros r H. by apply validate_phone_accepts in H as [_ ?].
  - intros Hs Hl Hd. unfold validate_phone. rewrite Hs, Hd.
    apply Z.eqb_eq in Hl. rewrite Hl. simpl.
    by destruct (str_truthy value).
Qed.

(** X16: with a prefix that has a character which is not a digit, or with
    a [min_length] below the length of the prefix, [validate_phone] rejects
    every non-empty value. *)
Theorem validate_phone_rejects_all_for_unusable_arguments
    (value : string) (min_length : Z) (prefix : string) :
  value ≠ "" ->
  all_isdigit prefix = false ∨ (min_length < Z.of_nat (String.length prefix))%Z ->
  validate_phone value min_length prefix
  = inl ("Invalid phone number format: must start with '" +:+ prefix
         +:+ "' and be " +:+ pretty min_length +:+ " digits").
Proof.
  intros Hne Hbad.
  destruct (validate_phone value min_length prefix) as [message|r] eqn:E.
  - unfold validate_phone in E.
    destruct (negb (str_truthy value)); [done|].
    destruct (negb (startswith value prefix)
              || negb (Z.of_nat (String.length value) =? min_length)%Z
              || negb (isdigit value)); [|done].
    by injection E as <-.
  - apply validate_phone_accepts in E as [_ H].
    destruct (H Hne) as (Hs & Hl & Hd). exfalso.
    destruct Hbad as [Hp|Hlt].
    + unfold isdigit in Hd. apply andb_prop in Hd as [_ Hd].
      unfold startswith in Hs.
      by rewrite (prefix_all_isdigit prefix value Hs Hd) in Hp.
    + unfold startswith in Hs. apply prefix_length in Hs. lia.
Qed.

Lemma validate_phone_rejects_all_for_unusable_arguments_witness :
  validate_phone "+8613800138000" 13 "+"
  = inl ("Invalid phone number format: must start with '" +:+ "+"
         +:+ "' and be " +:+ pretty 13%Z +:+ " digits").
Proof.
  apply (validate_phone_rejects_all_for_unusable_arguments
           "+8613800138000" 13 "+").
  - discriminate.
  - left. reflexivity.
Defined.
